(** * Pagination core of [static/js/editor2.js]

    A shallow embedding of the multi-page Quill editor: the registry of
    editors, the [.page] elements of the document, and the handlers that
    create, split, delete and renumber pages. *)

From Stdlib Require Import QArith.
From stdpp Require Import base option list strings pretty gmap sorting.

Local Open Scope string_scope.
Local Open Scope nat_scope.
Local Open Scope list_scope.

(** ** Content units

    A Quill Delta is an array of operations [{insert, attributes}].  An
    insert is a run of text or an embedded object. *)

Inductive Insert :=
  | Text (text : string)
  | Embed (kind value : string).

Record Op := mkOp {
  insert : Insert;
  attributes : list (string * string)
}.

Definition plain (text : string) : Op := mkOp (Text text) [].

Definition op_text (o : Op) : string :=
  match insert o with
  | Text t => t
  | Embed _ _ => ""
  end.

Definition op_length (o : Op) : nat :=
  match insert o with
  | Text t => String.length t
  | Embed _ _ => 1
  end.

(** ** One editor instance

    What [createQuillEditor] returns, together with the [containerId] its
    handlers close over.  [containerId] holds the number [n] of the string
    ["editor-n"] the editor was created with; the handlers recover it with
    [parseInt(containerId.split('-')[1])].  [contents] is the sequence of
    units that [getContents] hands out; the widget keeps it in the form
    that [normalise], below, gives to what [setContents] takes. *)

Record Quill := mkQuill {
  containerId : nat;
  contents : list Op
}.

#[global] Instance Quill_inhabited : Inhabited Quill := populate (mkQuill 0 []).

(** [quill.getText()]: the string inserts joined. *)
Definition getText (q : Quill) : string :=
  foldr (fun o acc => op_text o +:+ acc) "" (contents q).

(** [quill.getLength()]. *)
Definition getLength (q : Quill) : nat :=
  foldr (fun o acc => op_length o + acc) 0 (contents q).

(** ** Strings as JavaScript sees them

    A character of a Rocq string stands for one code unit below 256.  In that
    range [String.prototype.trim] strips TAB, LF, VT, FF, CR, SPACE and
    NBSP. *)

Definition is_js_space (c : Ascii.ascii) : bool :=
  let n := Ascii.nat_of_ascii c in
  ((9 <=? n) && (n <=? 13)) || (n =? 32) || (n =? 160).

Fixpoint trim_start (s : string) : string :=
  match s with
  | String c r => if is_js_space c then trim_start r else s
  | EmptyString => EmptyString
  end.

Definition trim (s : string) : string :=
  String.rev (trim_start (String.rev (trim_start s))).

Definition newline : string := String (Ascii.ascii_of_nat 10) EmptyString.

(** ** The document of the widget

    The editing widget is a library that the file drives; this is what the
    file relies on.  The widget keeps its document in one form, whatever it
    is handed and whatever the user types: a text run is never empty, two
    neighbouring text runs with the same attributes are one run, and the
    document ends with a line terminator ("Quill always adds a trailing
    newline", [isPageEmpty]).  After [setContents(delta)] the document is
    the units of [delta] with a line terminator behind them, unless the
    last unit is text that ends with one; so [setContents([])] leaves the
    one line terminator of an empty document.  Which attributes the widget
    accepts on which characters is not part of the embedding. *)

Definition nonempty_op (o : Op) : bool :=
  match insert o with
  | Text EmptyString => false
  | _ => true
  end.

(** A unit in front of a document: a text run joins the run that follows
    when both carry the same attributes. *)
Definition join (o : Op) (ops : list Op) : list Op :=
  match insert o, ops with
  | Text a, next :: rest =>
      match insert next with
      | Text b =>
          if decide (attributes o = attributes next)
          then mkOp (Text (a +:+ b)) (attributes o) :: rest
          else o :: ops
      | Embed _ _ => o :: ops
      end
  | _, _ => o :: ops
  end.

Definition merge_runs (ops : list Op) : list Op := foldr join [] ops.

Fixpoint last_char (s : string) : option Ascii.ascii :=
  match s with
  | EmptyString => None
  | String c r =>
      match r with
      | EmptyString => Some c
      | String _ _ => last_char r
      end
  end.

Definition ends_with_newline (o : Op) : bool :=
  match insert o with
  | Text t => bool_decide (last_char t = Some (Ascii.ascii_of_nat 10))
  | Embed _ _ => false
  end.

(** The line terminator that the widget keeps behind a document whose last
    unit does not end with one. *)
Definition terminate (ops : list Op) : list Op :=
  match last ops with
  | Some o => if ends_with_newline o then ops else ops ++ [plain newline]
  | None => [plain newline]
  end.

(** What the widget makes of the units it is handed. *)
Definition normalise (ops : list Op) : list Op :=
  merge_runs (terminate (List.filter nonempty_op ops)).

(** [isPageEmpty(quill)] *)
Definition isPageEmpty (quill : Quill) : bool :=
  let text := getText quill in
  bool_decide (text = newline) || bool_decide (trim text = "").

(** ** The page capacity

    [const pageHeight = (297 - 40) * 3.78].  [scrollHeight] is an integer, so
    the comparison [scrollHeight > pageHeight] is decided on the rationals;
    the double that JavaScript computes lies strictly between 971 and 972 as
    well. *)

Definition pageHeight : Q := ((297 - 40) * 3.78)%Q.

Definition exceeds_page (scrollHeight : Z) : bool :=
  negb (Qle_bool (inject_Z scrollHeight) pageHeight).

(** ** The document and the globals *)

Definition loc := nat.

(** A [div.page] with its [div.page-number] label and its editor container
    [div#editor-n]; [mounted] is the editor whose [.ql-editor] root sits in
    the container, if one was created there. *)
Record PageElem := mkPage {
  page_id : nat;
  page_number : nat;
  editor_id : nat;
  mounted : option loc
}.

(** Callbacks handed to [setTimeout]: the one of [deleteEmptyPage], which
    focuses whatever [activeEditor] is when it runs, at its end; a focus on
    a given editor at a given index; and the first focus after loading. *)
Inductive Task :=
  | FocusActiveEnd (prevPageNum : nat)
  | FocusAt (editor : loc) (index : nat)
  | InitialFocus.

(** The globals [currentPage], [editors] and [activeEditor]; the [.page]
    elements in document order; every editor ever created, an editor being
    referred to by its position in [heap]; the one selection the document
    has, as the editor that holds the focus and the index in it; the pending
    callbacks; and the text of the status elements. *)
Record State := mkState {
  currentPage : nat;
  editors : gmap nat loc;
  activeEditor : option loc;
  pages : list PageElem;
  heap : list Quill;
  cursor : option (loc * nat);
  timers : list Task;
  totalPagesDisplay : nat;
  currentPageDisplay : nat;
  lastSaved : string;
  statsText : string
}.

Definition quillAt (s : State) (q : loc) : Quill := heap s !!! q.

Definition set_currentPage (n : nat) (s : State) : State :=
  mkState n (editors s) (activeEditor s) (pages s) (heap s) (cursor s)
    (timers s) (totalPagesDisplay s) (currentPageDisplay s) (lastSaved s)
    (statsText s).

Definition set_editors (m : gmap nat loc) (s : State) : State :=
  mkState (currentPage s) m (activeEditor s) (pages s) (heap s) (cursor s)
    (timers s) (totalPagesDisplay s) (currentPageDisplay s) (lastSaved s)
    (statsText s).

Definition set_activeEditor (a : option loc) (s : State) : State :=
  mkState (currentPage s) (editors s) a (pages s) (heap s) (cursor s)
    (timers s) (totalPagesDisplay s) (currentPageDisplay s) (lastSaved s)
    (statsText s).

Definition set_pages (ps : list PageElem) (s : State) : State :=
  mkState (currentPage s) (editors s) (activeEditor s) ps (heap s) (cursor s)
    (timers s) (totalPagesDisplay s) (currentPageDisplay s) (lastSaved s)
    (statsText s).

Definition set_heap (h : list Quill) (s : State) : State :=
  mkState (currentPage s) (editors s) (activeEditor s) (pages s) h (cursor s)
    (timers s) (totalPagesDisplay s) (currentPageDisplay s) (lastSaved s)
    (statsText s).

Definition set_cursor (c : option (loc * nat)) (s : State) : State :=
  mkState (currentPage s) (editors s) (activeEditor s) (pages s) (heap s) c
    (timers s) (totalPagesDisplay s) (currentPageDisplay s) (lastSaved s)
    (statsText s).

Definition set_timers (ts : list Task) (s : State) : State :=
  mkState (currentPage s) (editors s) (activeEditor s) (pages s) (heap s)
    (cursor s) ts (totalPagesDisplay s) (currentPageDisplay s) (lastSaved s)
    (statsText s).

Definition set_totalPagesDisplay (n : nat) (s : State) : State :=
  mkState (currentPage s) (editors s) (activeEditor s) (pages s) (heap s)
    (cursor s) (timers s) n (currentPageDisplay s) (lastSaved s)
    (statsText s).

Definition set_currentPageDisplay (n : nat) (s : State) : State :=
  mkState (currentPage s) (editors s) (activeEditor s) (pages s) (heap s)
    (cursor s) (timers s) (totalPagesDisplay s) n (lastSaved s)
    (statsText s).

Definition set_lastSaved (t : string) (s : State) : State :=
  mkState (currentPage s) (editors s) (activeEditor s) (pages s) (heap s)
    (cursor s) (timers s) (totalPagesDisplay s) (currentPageDisplay s) t
    (statsText s).

Definition set_statsText (t : string) (s : State) : State :=
  mkState (currentPage s) (editors s) (activeEditor s) (pages s) (heap s)
    (cursor s) (timers s) (totalPagesDisplay s) (currentPageDisplay s)
    (lastSaved s) t.

(** [setTimeout(callback, ...)]: the callback joins the pending ones. *)
Definition setTimeout (t : Task) (s : State) : State :=
  set_timers (timers s ++ [t]) s.

(** ** Queries

    [Object.keys(editors)]: the keys are array indices, so the object
    enumerates them in ascending numeric order; the exports sort them with
    [(a, b) => parseInt(a) - parseInt(b)] on top of that. *)
Definition keys (m : gmap nat loc) : list nat :=
  merge_sort (≤) (elements (dom m)).

(** [Object.values(editors)] *)
Definition values (m : gmap nat loc) : list loc :=
  omap (fun k => m !! k) (keys m).

Definition concat_strings (l : list string) : string :=
  foldr String.append "" l.

(** [quill.getSelection()]: the index of the range, [None] for [null] when
    the editor does not hold the focus.  No handler reads the length of the
    range. *)
Definition getSelection (s : State) (quill : loc) : option nat :=
  match cursor s with
  | Some (q, index) => if decide (q = quill) then Some index else None
  | None => None
  end.

(** [document.getElementById(`page-${n}`)]: the position of the first page
    with that id. *)
Definition getPageById (s : State) (n : nat) : option nat :=
  fst <$> list_find (fun p => page_id p = n) (pages s).

(** [document.querySelector(`#editor-${n}`)] *)
Definition getEditorContainer (ps : list PageElem) (n : nat) : option nat :=
  fst <$> list_find (fun p => editor_id p = n) ps.

(** [document.querySelector(`#editor-${n} .ql-editor`)]: the first editor
    root below a container with that id, named by the editor it belongs to. *)
Definition getEditorElement (s : State) (n : nat) : option loc :=
  head (omap (fun p => if decide (editor_id p = n) then mounted p else None)
             (pages s)).

(** ** Handlers and operations *)

(** The sources of a change; the widget raises no event for a silent one. *)
Inductive Source := User | Api | Silent.

Inductive Key := Backspace | Delete | OtherKey.

#[global] Instance Key_eq_dec : EqDecision Key.
Proof. solve_decision. Defined.

(** [updateStats()]: the four counters are computed from the text of all
    editors; [statsText] keeps that text. *)
Definition updateStats (s : State) : State :=
  set_statsText
    (concat_strings (map (fun e => getText (quillAt s e)) (values (editors s))))
    s.

(** [updateCurrentPageDisplay(containerId)] *)
Definition updateCurrentPageDisplay (containerId : nat) (s : State) : State :=
  set_currentPageDisplay containerId s.

(** [updatePageCount()].  [Math.max()] of no keys is [-Infinity]; the code
    goes on with it, but it is no page number, and the states of the
    embedding have no place for it: [None], here and in the callers, for an
    empty registry.  No state that the handlers reach from the loaded page
    has an empty registry. *)
Definition updatePageCount (s : State) : option State :=
  match keys (editors s) with
  | [] => None
  | k :: ks =>
      Some (set_currentPage (foldr Nat.max k ks)
              (set_totalPagesDisplay (size (editors s)) s))
  end.

(** The [text-change] handler of [createQuillEditor], with the overflow check
    it calls left open: the check runs [moveOverflowContent], which calls
    [setContents], which fires the handler again.  The callback the handler
    schedules for a user edit writes to the console and nothing else. *)
Definition on_text_change
    (checkPageOverflow : loc -> nat -> State -> option State)
    (source : Source) (quill : loc) (s : State) : option State :=
  let s := updateStats s in
  match source with
  | User =>
      s ← checkPageOverflow quill (containerId (quillAt s quill)) s;
      Some (set_lastSaved "Unsaved changes" s)
  | _ => Some s
  end.

(** [quill.setContents(delta)]: the editor holds what the widget makes of
    the units; the source defaults to ['api'], and the handler runs before
    the call returns.  The handler is given a check that would abort if it
    were called. *)
Definition setContents (quill : loc) (ops : list Op) (s : State)
    : option State :=
  on_text_change (fun _ _ _ => None) Api quill
    (set_heap
       (alter (fun q => mkQuill (containerId q) (normalise ops)) quill
          (heap s)) s).

(** The [selection-change] handler with a range: what [focus()] and
    [setSelection(index)] leave behind. *)
Definition focusAt (quill : loc) (index : nat) (s : State) : State :=
  updateCurrentPageDisplay (containerId (quillAt s quill))
    (set_activeEditor (Some quill) (set_cursor (Some (quill, index)) s)).

(** [createQuillEditor(containerId)]: [new Quill] mounts the editor in the
    first container with that id; an empty container gives the widget's
    empty document, a single line terminator.  The handlers are registered
    on the editor and on its root, and keep [quill] and [containerId]. *)
Definition createQuillEditor (containerId : nat) (s : State)
    : option (loc * State) :=
  i ← getEditorContainer (pages s) containerId;
  let quill := length (heap s) in
  Some (quill,
        set_pages
          (alter (fun p => mkPage (page_id p) (page_number p) (editor_id p)
                             (Some quill)) i (pages s))
          (set_heap (heap s ++ [mkQuill containerId [plain newline]]) s)).

(** [renumberPages()]: one round of the [forEach]. *)
Definition renumber_step (editors : gmap nat loc)
    (acc : nat * gmap nat loc * list PageElem) (pageElement : PageElem)
    : nat * gmap nat loc * list PageElem :=
  let '(newPageNum, newEditors, done) := acc in
  let oldPageNum := page_id pageElement in
  (S newPageNum,
   match editors !! oldPageNum with
   | Some e => <[newPageNum := e]> newEditors
   | None => newEditors
   end,
   done ++ [mkPage newPageNum newPageNum newPageNum (mounted pageElement)]).

Definition renumberPages (s : State) : State :=
  let '(newPageNum, newEditors, pageElements) :=
    foldl (renumber_step (editors s)) (1, ∅, []) (pages s) in
  set_currentPage (newPageNum - 1)
    (set_editors newEditors (set_pages pageElements s)).

(** [createNewPage()] *)
Definition createNewPage (s : State) : option State :=
  let s := set_currentPage (S (currentPage s)) s in
  let n := currentPage s in
  let s := set_pages (pages s ++ [mkPage n n n None]) s in
  '(quill, s) ← createQuillEditor n s;
  updatePageCount (set_editors (<[n := quill]> (editors s)) s).

(** [deleteEmptyPage(pageNum)].  [pageNum - 1] is only looked up after
    [editors[pageNum]] was deleted, so the truncated subtraction finds
    nothing at [pageNum = 0], as [editors[-1]] does. *)
Definition deleteEmptyPage (pageNum : nat) (s : State)
    : option (bool * State) :=
  if decide (pageNum = 1) then Some (false, s)
  else
    match editors s !! pageNum with
    | None => Some (false, s)
    | Some editorToDelete =>
        match getPageById s pageNum with
        | None => Some (false, s)
        | Some pageElement =>
            if isPageEmpty (quillAt s editorToDelete) then
              let s := set_pages (delete pageElement (pages s)) s in
              let s := set_editors (delete pageNum (editors s)) s in
              let prevPageNum := pageNum - 1 in
              let s :=
                match editors s !! prevPageNum with
                | Some prev =>
                    setTimeout (FocusActiveEnd prevPageNum)
                      (set_activeEditor (Some prev) s)
                | None => s
                end in
              s ← updatePageCount (renumberPages s);
              Some (true, s)
            else Some (false, s)
        end
    end.

(** A [while] loop: [None] when the body throws or the fuel runs out before
    the condition fails. *)
Fixpoint while_loop {S : Type} (cond : S -> bool) (body : S -> option S)
    (fuel : nat) (st : S) : option S :=
  if cond st then
    match fuel with
    | 0 => None
    | S fuel => st ← body st; while_loop cond body fuel st
    end
  else Some st.

(** The variables of the loop in [moveOverflowContent]. *)
Record SplitVars := mkSplit {
  ops : list Op;
  moveOps : list Op;
  totalHeight : Z;
  state : State
}.

Section Layout.

(** [editorElement.scrollHeight], as the layout engine gives it for the
    contents of the editor that owns the element. *)
Variable scrollHeight : list Op -> Z.

Definition elementHeight (s : State) (editorElement : loc) : Z :=
  scrollHeight (contents (quillAt s editorElement)).

Definition split_cond (v : SplitVars) : bool :=
  exceeds_page (totalHeight v) && (1 <? length (ops v)).

Definition split_body (currentQuill editorElement : loc) (v : SplitVars)
    : option SplitVars :=
  lastOp ← last (ops v);
  let ops := removelast (ops v) in
  let moveOps := lastOp :: moveOps v in
  s ← setContents currentQuill ops (state v);
  Some (mkSplit ops moveOps (elementHeight s editorElement) s).

(** [moveOverflowContent(currentQuill, currentContainerId)].  The loop
    pops one unit per round, so the number of units is fuel enough. *)
Definition moveOverflowContent (currentQuill : loc)
    (currentContainerId : nat) (s : State) : option State :=
  match editors s !! currentPage s with
  | None => Some s
  | Some nextEditor =>
      let ops := contents (quillAt s currentQuill) in
      if 1 <? length ops then
        editorElement ← getEditorElement s currentContainerId;
        v ← while_loop split_cond (split_body currentQuill editorElement)
              (length ops)
              (mkSplit ops [] (elementHeight s editorElement) s);
        if 0 <? length (moveOps v)
        then setContents nextEditor (moveOps v) (state v)
        else Some (state v)
      else Some s
  end.

(** [checkPageOverflow(quill, containerId)] *)
Definition checkPageOverflow (quill : loc) (containerId : nat) (s : State)
    : option State :=
  match getEditorElement s containerId with
  | None => Some s
  | Some editorElement =>
      if exceeds_page (elementHeight s editorElement) then
        s ← createNewPage s;
        moveOverflowContent quill containerId s
      else Some s
  end.

(** The [text-change] handler as registered. *)
Definition text_change (source : Source) (quill : loc) (s : State)
    : option State :=
  on_text_change checkPageOverflow source quill s.

(** An edit that the user makes in the widget: the editor holds the
    document that the widget makes of it, and the handler runs with the
    source ['user']. *)
Definition user_edit (quill : loc) (ops : list Op) (s : State)
    : option State :=
  text_change User quill
    (set_heap
       (alter (fun q => mkQuill (containerId q) (normalise ops)) quill
          (heap s)) s).

End Layout.

(** [handleEnterAtBeginning(quill, containerId)].  [editors[currentPage]] is
    dereferenced without a test: [None] is the [TypeError]. *)
Definition handleEnterAtBeginning (quill : loc) (containerId : nat)
    (s : State) : option (bool * State) :=
  match getSelection s quill with
  | Some 0 =>
      let currentContent := contents (quillAt s quill) in
      s ← match editors s !! (currentPage s + 1) with
          | None => createNewPage s
          | Some _ => Some s
          end;
      nextEditor ← editors s !! currentPage s;
      s ← setContents nextEditor currentContent s;
      s ← setContents quill [] s;
      Some (true, setTimeout (FocusAt nextEditor 0) s)
  | _ => Some (false, s)
  end.

(** The position, counted from 1, of the page an editor is mounted in. *)
Definition rankOf (s : State) (quill : loc) : option nat :=
  (fun ip => S (fst ip)) <$>
    list_find (fun p => mounted p = Some quill) (pages s).

(** Modelled from the spec: [isCursorAtBeginning(quill)], called by the
    keydown listener and not defined in the file.  The cursor is at offset 0
    of the page. *)
Definition isCursorAtBeginning (s : State) (quill : loc) : bool :=
  bool_decide (getSelection s quill = Some 0).

(** Modelled from the spec: [moveContentToPreviousPage(quill, containerId)],
    called by the keydown listener and not defined in the file.  The page's
    entire content goes to the end of the previous page's content, the page,
    now empty, is deleted, the pages are renumbered, and the cursor is placed
    (after the render pass) at the join point, the end of what was the
    previous page's content.  Page 1 and a page that is not there are
    refused without a change. *)
Definition moveContentToPreviousPage (quill : loc) (containerId : nat)
    (s : State) : option (bool * State) :=
  match rankOf s quill with
  | None => Some (false, s)
  | Some rank =>
      if decide (rank = 1) then Some (false, s)
      else
        match editors s !! (rank - 1) with
        | None => Some (false, s)
        | Some prev =>
            let joinPoint := getLength (quillAt s prev) in
            s ← setContents prev
                  (contents (quillAt s prev) ++ contents (quillAt s quill)) s;
            s ← setContents quill [] s;
            let s := set_pages (delete (rank - 1) (pages s)) s in
            let s := set_editors (delete rank (editors s)) s in
            s ← updatePageCount (renumberPages s);
            Some (true, setTimeout (FocusAt prev joinPoint) s)
        end
  end.

(** The [keydown] listener of [createQuillEditor]; the boolean tells whether
    [e.preventDefault()] was called. *)
Definition keydown (key : Key) (quill : loc) (s : State)
    : option (bool * State) :=
  let pageNum := containerId (quillAt s quill) in
  let on_delete :=
    if bool_decide (key = Delete) && (1 <? pageNum)
       && isPageEmpty (quillAt s quill)
    then '(deleted, s) ← deleteEmptyPage pageNum s; Some (true, s)
    else Some (false, s) in
  if bool_decide (key = Backspace) && (1 <? pageNum) then
    let isEmpty := isPageEmpty (quillAt s quill) in
    let atBeginning := isCursorAtBeginning s quill in
    if isEmpty then
      '(deleted, s) ← deleteEmptyPage pageNum s; Some (true, s)
    else if atBeginning then
      '(moved, s) ← moveContentToPreviousPage quill pageNum s; Some (true, s)
    else on_delete
  else on_delete.

(** The handler that [createQuillEditor] binds to Enter with
    [quill.keyboard.addBinding]; the keyboard module would call it with the
    current range.  The boolean tells whether it handled the key (it
    returned [false]). *)
Definition enter_binding (quill : loc) (s : State) : option (bool * State) :=
  match getSelection s quill with
  | Some 0 =>
      '(handled, s) ← handleEnterAtBeginning quill
                         (containerId (quillAt s quill)) s;
      Some (handled, s)
  | _ => Some (false, s)
  end.

(** A pending callback runs. *)
Definition run_task (t : Task) (s : State) : option State :=
  match t with
  | FocusActiveEnd prevPageNum =>
      a ← activeEditor s;
      Some (updateCurrentPageDisplay prevPageNum
              (focusAt a (getLength (quillAt s a) - 1) s))
  | FocusAt editor index => Some (focusAt editor index s)
  | InitialFocus =>
      match activeEditor s with
      | Some a => Some (focusAt a (getLength (quillAt s a) - 1) s)
      | None => Some s
      end
  end.

(** ** The editor as a machine *)

(** The page as the template serves it: one page, no editor yet. *)
Definition blank_document : State :=
  mkState 1 ∅ None [mkPage 1 1 1 None] [] None [] 1 1 "" "".

(** The [DOMContentLoaded] listener, as far as it touches the pages. *)
Definition DOMContentLoaded (s : State) : option State :=
  '(quill, s) ← createQuillEditor 1 s;
  let s := set_editors (<[1 := quill]> (editors s)) s in
  let s := set_activeEditor (editors s !! 1) s in
  Some (setTimeout InitialFocus (updateStats s)).

(** [bindings.some(binding => binding.handler.call(...) !== true)] in the
    [keydown] listener of the widget's keyboard module: the handlers bound
    to the key run in the order they were bound, until one returns
    something other than [true]; the default is prevented when one did.  A
    handler gives back here whether it returned [true]. *)
Fixpoint some_binding (bindings : list (State -> option (bool * State)))
    (s : State) : option (bool * State) :=
  match bindings with
  | [] => Some (false, s)
  | handler :: bindings =>
      match handler s with
      | Some (returned_true, s) =>
          if returned_true then some_binding bindings s else Some (true, s)
      | None => None
      end
  end.

(** What the user does: an edit in an editor that leaves [ops]; a click or
    an arrow key that puts the cursor at [index]; a key of the [keydown]
    listener; Enter, with [ops] and [index] being the document and the
    cursor that the widget's own handling of the key leaves (for text
    without list or header formats, a line terminator put in at the cursor,
    and the cursor behind it); and a pending callback that comes due. *)
Inductive Event :=
  | UserEdit (quill : loc) (ops : list Op)
  | UserSelect (quill : loc) (index : nat)
  | KeyDown (key : Key) (quill : loc)
  | KeyEnter (quill : loc) (ops : list Op) (index : nat)
  | Timeout (i : nat).

(** Only an editor that is on a page of the document gets input. *)
Definition on_page (s : State) (quill : loc) : bool :=
  bool_decide (Some quill ∈ mounted <$> pages s).

Section Machine.

Variable scrollHeight : list Op -> Z.

(** The widget's own binding of Enter, bound when [new Quill] constructs
    the keyboard module: it edits as the user, sets the selection silently,
    and returns nothing. *)
Definition widget_enter (quill : loc) (ops : list Op) (index : nat)
    (s : State) : option (bool * State) :=
  s ← user_edit scrollHeight quill ops s;
  Some (false, set_cursor (Some (quill, index)) s).

(** Enter is pressed in an editor.  The keyboard module does nothing
    without a range; with one, the handlers bound to Enter run in the order
    they were bound: the widget's own, and behind it the one that
    [createQuillEditor] adds once [new Quill] has returned. *)
Definition keyboard_enter (quill : loc) (ops : list Op) (index : nat)
    (s : State) : option (bool * State) :=
  match getSelection s quill with
  | None => Some (false, s)
  | Some _ =>
      some_binding
        [widget_enter quill ops index;
         fun s => '(handled, s) ← enter_binding quill s;
                  Some (negb handled, s)]
        s
  end.

Definition handle (e : Event) (s : State) : option State :=
  match e with
  | UserEdit quill ops =>
      if on_page s quill then user_edit scrollHeight quill ops s else None
  | UserSelect quill index =>
      if on_page s quill then Some (focusAt quill index s) else None
  | KeyDown key quill =>
      if on_page s quill then snd <$> keydown key quill s else None
  | KeyEnter quill ops index =>
      if on_page s quill then snd <$> keyboard_enter quill ops index s
      else None
  | Timeout i =>
      t ← timers s !! i;
      run_task t (set_timers (delete i (timers s)) s)
  end.

Definition run (es : list Event) (s : State) : option State :=
  foldl (fun os e => os ≫= handle e) (Some s) es.

Inductive reachable : State -> Prop :=
  | reach_init s : DOMContentLoaded blank_document = Some s -> reachable s
  | reach_step s e s' : reachable s -> handle e s = Some s' -> reachable s'.

End Machine.

(** ** Export *)

Record Download := mkDownload {
  content : string;
  fileName : string;
  mimeType : string
}.

(** The registry with its keys sorted by the comparator of the exports,
    [(a, b) => parseInt(a) - parseInt(b)]. *)
Definition sorted_entries (m : gmap nat loc) : list (nat * loc) :=
  omap (fun pageNum => pair pageNum <$> m !! pageNum)
       (merge_sort (≤) (keys m)).

(** [`\n\n--- Page ${pageNum} ---\n\n`] *)
Definition page_separator (pageNum : nat) : string :=
  newline +:+ newline +:+ "--- Page " +:+ pretty pageNum +:+ " ---"
    +:+ newline +:+ newline.

(** [exportAsText()], with the arguments of [downloadFile] as its result. *)
Definition exportAsText (s : State) : Download :=
  let allText :=
    foldl (fun allText '(pageNum, editor) =>
             (allText +:+ page_separator pageNum)
               +:+ getText (quillAt s editor))
          "" (sorted_entries (editors s)) in
  mkDownload allText "document.txt" "text/plain".

(** The text of the editor registered under a page number. *)
Definition pageText (s : State) (pageNum : nat) : string :=
  from_option (fun e => getText (quillAt s e)) "" (editors s !! pageNum).

(** ** Well-formed states

    What every state the handlers can reach looks like: the pages carry the
    ids [1..N] in document order, the registry maps [1..N] to the editors
    mounted in them, [currentPage] is [N], and an editor was created under a
    number that is at least its present rank. *)
Record wf (s : State) : Prop := mkWf {
  wf_nonempty : 1 ≤ length (pages s);
  wf_currentPage : currentPage s = length (pages s);
  wf_pages : ∀ i p, pages s !! i = Some p →
    page_id p = S i ∧ page_number p = S i ∧ editor_id p = S i ∧
    ∃ q, mounted p = Some q ∧ editors s !! S i = Some q ∧
         q < length (heap s) ∧ S i ≤ containerId (quillAt s q);
  wf_first : ∀ p q, pages s !! 0 = Some p → mounted p = Some q →
    containerId (quillAt s q) = 1;
  wf_editors : ∀ k q, editors s !! k = Some q → 1 ≤ k ≤ length (pages s);
  wf_mounted_inj : ∀ i j p p', pages s !! i = Some p → pages s !! j = Some p' →
    mounted p = mounted p' → i = j
}.

(** The ranks that are alive: the ids of the pages in document order, and
    the keys of the registry. *)
Definition page_ranks (s : State) : list nat := page_id <$> pages s.

Definition registry_ranks (s : State) : list nat := keys (editors s).

(** Two states with the same pages, registry and [currentPage], and the same
    editors up to their contents. *)
Definition same_shape (s s' : State) : Prop :=
  pages s' = pages s ∧ editors s' = editors s ∧
  currentPage s' = currentPage s ∧
  length (heap s') = length (heap s) ∧
  ∀ q, containerId (quillAt s' q) = containerId (quillAt s q).

(** The live ranks are [1..N], in the document and in the registry. *)
Definition dense_ranks (s : State) : Prop :=
  1 ≤ length (pages s) ∧
  page_ranks s = seq 1 (length (pages s)) ∧
  registry_ranks s = seq 1 (length (pages s)).

(** All pending callbacks run, oldest first. *)
Definition run_timers (s : State) : option State :=
  foldl (fun os t => os ≫= run_task t) (Some (set_timers [] s)) (timers s).

(** ** Sample documents *)

(** A text run with one format switched on. *)
Definition styled (format text : string) : Op :=
  mkOp (Text text) [(format, "true")].

(** Three editors registered in the order 3, 1, 2, in which "a", "b", "c"
    were typed on pages 1, 2, 3; each holds its line terminator. *)
Definition abc_document : State :=
  mkState 3 (<[2 := 1]> (<[1 := 0]> (<[3 := 2]> ∅))) (Some 0)
    [mkPage 1 1 1 (Some 0); mkPage 2 2 2 (Some 1); mkPage 3 3 3 (Some 2)]
    [mkQuill 1 [plain ("a" +:+ newline)]; mkQuill 2 [plain ("b" +:+ newline)];
     mkQuill 3 [plain ("c" +:+ newline)]]
    None [] 3 1 ""
    ("a" +:+ newline +:+ "b" +:+ newline +:+ "c" +:+ newline).

(** A layout in which every unit is 500 pixels high. *)
Definition tall_units (ops : list Op) : Z := (500 * Z.of_nat (length ops))%Z.

(** A layout in which nothing ever fits. *)
Definition never_fits (ops : list Op) : Z := 5000%Z.

(** A layout in which everything fits. *)
Definition always_fits (ops : list Op) : Z := 0%Z.

(** A layout in which every character is 100 pixels high: a blank page
    fits, ten characters do not. *)
Definition by_length (ops : list Op) : Z :=
  (100 * Z.of_nat (getLength (mkQuill 0 ops)))%Z.

(** The document as loaded, a blank first page. *)
Definition loaded_document : State :=
  mkState 1 {[1 := 0]} (Some 0) [mkPage 1 1 1 (Some 0)]
    [mkQuill 1 [plain newline]] None [InitialFocus] 1 1 "" newline.

(** One page holding "Hello", the cursor at its start. *)
Definition hello_document : State :=
  mkState 1 {[1 := 0]} (Some 0) [mkPage 1 1 1 (Some 0)]
    [mkQuill 1 [plain ("Hello" +:+ newline)]] (Some (0, 0)) [] 1 1 ""
    ("Hello" +:+ newline).

(** Page 1 holds three units, a bold "x", an italic "y" and a plain "z"
    with the line terminator, page 2 one; the cursor is at the end of the
    text of page 1. *)
Definition two_pages : State :=
  mkState 2 (<[2 := 1]> {[1 := 0]}) (Some 0)
    [mkPage 1 1 1 (Some 0); mkPage 2 2 2 (Some 1)]
    [mkQuill 1 [styled "bold" "x"; styled "italic" "y";
                plain ("z" +:+ newline)];
     mkQuill 2 [plain ("w" +:+ newline)]]
    (Some (0, 3)) [] 2 1 "" ("xyz" +:+ newline +:+ "w" +:+ newline).


(** Two edits of the first page that overflow it, each of which adds a
    blank page at the end; Delete on the blank second page; and a click
    into the page that follows. *)
Definition stale_events : list Event :=
  [UserEdit 0 [plain "Hello world"]; UserEdit 0 [plain "Hello world!"];
   UserSelect 1 0; KeyDown Delete 1; UserSelect 2 0].

(** Where [stale_events] lead: the page that was created as page 3 is now
    page 2, and its handlers still hold ["editor-3"]. *)
Definition stale_document : State :=
  mkState 2 (<[2 := 2]> {[1 := 0]}) (Some 2)
    [mkPage 1 1 1 (Some 0); mkPage 2 2 2 (Some 2)]
    [mkQuill 1 [plain ("Hello world!" +:+ newline)];
     mkQuill 2 [plain newline]; mkQuill 3 [plain newline]]
    (Some (2, 0))
    [InitialFocus; FocusActiveEnd 1]
    2 3 "Unsaved changes" ("Hello world!" +:+ newline +:+ newline).

(** One page holding a bold "Hello " and a plain "world" with the line
    terminator. *)
Definition scenario_A : State :=
  mkState 1 {[1 := 0]} (Some 0) [mkPage 1 1 1 (Some 0)]
    [mkQuill 1 [styled "bold" "Hello "; plain ("world" +:+ newline)]]
    (Some (0, 11)) [] 1 1 "" ("Hello world" +:+ newline).

(** ** Further definitions *)

(** The units of the document in page order. *)
Definition pageContents (s : State) (p : PageElem) : list Op :=
  from_option (fun q => contents (quillAt s q)) [] (mounted p).

Definition document (s : State) : list Op :=
  concat (pageContents s <$> pages s).

(** Every character is one that [trim] strips. *)
Fixpoint all_space (s : string) : bool :=
  match s with
  | EmptyString => true
  | String c r => is_js_space c && all_space r
  end.

(** An editor that holds one image and no text but the line terminator. *)
Definition image_only : Quill :=
  mkQuill 2 [mkOp (Embed "image" "data") []; plain newline].

(** Two blank pages, the cursor in the second. *)
Definition blank_two_pages : State :=
  mkState 2 (<[2 := 1]> {[1 := 0]}) (Some 0)
    [mkPage 1 1 1 (Some 0); mkPage 2 2 2 (Some 1)]
    [mkQuill 1 [plain newline]; mkQuill 2 [plain newline]]
    (Some (1, 0)) [] 2 2 "" (newline +:+ newline).

(** [truncateText(text, maxLength)], for a string and a length that is a
    natural number. *)
Definition truncateText (text : string) (maxLength : nat) : string :=
  if bool_decide (text = "") then ""
  else if String.length text <=? maxLength then text
  else String.substring 0 maxLength text +:+ "...".

(** [two_pages] with the cursor at the start of page 1. *)
Definition two_pages_at_start : State := set_cursor (Some (0, 0)) two_pages.

(** The first editor in document order, if the first page has one. *)
Definition first_editor (s : State) : option (option loc) :=
  head (mounted <$> pages s).

(** ** The statistics

    What [updateStats] writes into the four counters, as functions of the
    text it gathers from the editors ([statsText]). *)

(** [text.split(/\s+/)]: the pieces between the maximal runs of blank
    characters; [in_gap] tells that the character before was blank. *)
Fixpoint split_spaces (in_gap : bool) (s : string) : list string :=
  match s with
  | EmptyString => [EmptyString]
  | String c r =>
      if is_js_space c then
        if in_gap then split_spaces true r
        else EmptyString :: split_spaces true r
      else
        match split_spaces false r with
        | piece :: pieces => String c piece :: pieces
        | [] => [String c EmptyString]
        end
  end.

(** [text.split('\n')] *)
Fixpoint split_lines (s : string) : list string :=
  match s with
  | EmptyString => [EmptyString]
  | String c r =>
      if Ascii.eqb c (Ascii.ascii_of_nat 10) then EmptyString :: split_lines r
      else
        match split_lines r with
        | line :: lines => String c line :: lines
        | [] => [String c EmptyString]
        end
  end.

(** [Math.ceil(n / d)] for natural numbers. *)
Definition ceil_div (n d : nat) : nat :=
  if n mod d =? 0 then n / d else S (n / d).

(** [totalText.trim() ? totalText.trim().split(/\s+/).length : 0] *)
Definition wordCount (totalText : string) : nat :=
  if bool_decide (trim totalText = "") then 0
  else length (split_spaces false (trim totalText)).

(** [Math.max(0, totalText.length - 1)] *)
Definition charCount (totalText : string) : nat :=
  String.length totalText - 1.

(** [Math.max(1, totalText.split('\n').filter(p => p.trim().length > 0).length)] *)
Definition paragraphCount (totalText : string) : nat :=
  Nat.max 1
    (length (filter (fun p => 0 < String.length (trim p))
               (split_lines totalText))).

(** [Math.ceil(words / 200) || 1] *)
Definition readingTime (totalText : string) : nat :=
  let minutes := ceil_div (wordCount totalText) 200 in
  if minutes =? 0 then 1 else minutes.

(** The number of maximal runs of characters that are not blank. *)
Fixpoint word_runs (in_word : bool) (s : string) : nat :=
  match s with
  | EmptyString => 0
  | String c r =>
      if is_js_space c then word_runs false r
      else (if in_word then 0 else 1) + word_runs true r
  end.

(** The last character is one that [trim] strips. *)
Fixpoint ends_blank (s : string) : bool :=
  match s with
  | EmptyString => false
  | String c r =>
      match r with
      | EmptyString => is_js_space c
      | String _ _ => ends_blank r
      end
  end.

(** The first character is not blank. *)
Definition starts_word (s : string) : bool :=
  match s with
  | EmptyString => false
  | String c _ => negb (is_js_space c)
  end.

Definition sum_list (l : list nat) : nat := foldr Nat.add 0 l.

(** ** Saving, leaving, and the dark mode *)





(** The [darkMode] global, the [dark] class of the body, and
    [localStorage], [None] when the browser gives no access to it. *)
Record Prefs := mkPrefs {
  darkMode : bool;
  bodyDark : bool;
  localStorage : option (gmap string string)
}.

(** [String(b)] *)
Definition string_of_bool (b : bool) : string :=
  if b then "true" else "false".

(** [toggleDarkMode()]; a [setItem] that throws is caught. *)
Definition toggleDarkMode (p : Prefs) : Prefs :=
  let darkMode := negb (darkMode p) in
  mkPrefs darkMode darkMode
    ((fun m => <["darkMode" := string_of_bool darkMode]> m)
       <$> localStorage p).

(** A page load: [darkMode] starts as [false], the body as the template
    has it, and the [DOMContentLoaded] listener toggles when the stored
    value is ['true']; a [getItem] that throws is caught. *)
Definition loadDarkMode (templateDark : bool)
    (storage : option (gmap string string)) : Prefs :=
  let p := mkPrefs false templateDark storage in
  match storage with
  | Some m =>
      if bool_decide (m !! "darkMode" = Some "true") then toggleDarkMode p
      else p
  | None => p
  end.

(** ** Markdown export *)

(** [text.replace('\n', '')]: the first line terminator goes. *)
Fixpoint remove_first_newline (s : string) : string :=
  match s with
  | EmptyString => EmptyString
  | String c r =>
      if Ascii.eqb c (Ascii.ascii_of_nat 10) then r
      else String c (remove_first_newline r)
  end.

(** ['#'.repeat(level)] *)
Fixpoint repeat_hash (level : nat) : string :=
  match level with
  | 0 => EmptyString
  | S n => "#" +:+ repeat_hash n
  end.

Section Markdown.

(** How the values in the attribute bag of a unit read in JavaScript:
    [header o] is [None] when [op.attributes] is missing or
    [op.attributes.header] is falsy, and otherwise the count that
    ['#'.repeat] makes of it; [bold o] and [italic o] tell whether
    [op.attributes] is there and the attribute is truthy. *)
Variable header : Op -> option nat.
Variables bold italic : Op -> bool.

(** What one round of [delta.ops.forEach] adds. *)
Definition op_markdown (o : Op) : string :=
  match insert o with
  | Text text =>
      match header o with
      | Some level =>
          repeat_hash level +:+ " " +:+ remove_first_newline text
            +:+ newline +:+ newline
      | None =>
          if bold o then "**" +:+ text +:+ "**"
          else if italic o then "*" +:+ text +:+ "*"
          else text
      end
  | Embed _ _ => ""
  end.

(** [`\n\n## Page ${pageNum}\n\n`] *)
Definition page_heading (pageNum : nat) : string :=
  newline +:+ newline +:+ "## Page " +:+ pretty pageNum
    +:+ newline +:+ newline.

(** [exportAsMarkdown()] *)
Definition exportAsMarkdown (s : State) : Download :=
  let allMarkdown :=
    foldl (fun allMarkdown '(pageNum, editor) =>
             foldl (fun allMarkdown o => allMarkdown +:+ op_markdown o)
                   (allMarkdown +:+ page_heading pageNum)
                   (contents (quillAt s editor)))
          "" (sorted_entries (editors s)) in
  mkDownload allMarkdown "document.md" "text/markdown".

End Markdown.

(** ** Documents in the widget's form *)

(** Two neighbours that the widget holds as one run. *)
Definition joinable (a b : Op) : bool :=
  match insert a, insert b with
  | Text _, Text _ => bool_decide (attributes a = attributes b)
  | _, _ => false
  end.

(** No unit is an empty text run, and no text run could join the next. *)
Fixpoint separate (ops : list Op) : bool :=
  match ops with
  | [] => true
  | a :: rest =>
      nonempty_op a
      && match rest with
         | b :: _ => negb (joinable a b)
         | [] => true
         end
      && separate rest
  end.

(** The last unit ends with a line terminator. *)
Definition ends_last (ops : list Op) : bool :=
  from_option ends_with_newline false (last ops).

(** A document as the widget holds it. *)
Definition canonical (ops : list Op) : Prop := normalise ops = ops.

(** Every editor holds a document in the widget's form. *)
Definition tidy (s : State) : Prop :=
  ∀ q, q < length (heap s) → canonical (contents (quillAt s q)).

(** The text of a sequence of units. *)
Definition unitsText (ops : list Op) : string := getText (mkQuill 0 ops).

(** The text of the document, page after page. *)
Definition documentText (s : State) : string := unitsText (document s).

(** * Properties *)

Example loaded_document_is_loaded :
  DOMContentLoaded blank_document = Some loaded_document.
Proof. vm_compute. reflexivity. Qed.

Example trim_sample : trim (" a b " +:+ newline) = "a b".
Proof. reflexivity. Qed.

Lemma exceeds_page_spec h : exceeds_page h = (971 <? h)%Z.
Proof.
  unfold exceeds_page, pageHeight, Qle_bool. cbn.
  change (Z.pos (1 * 1 * 100)) with 100%Z.
  change ((297 * 1 + - (40) * 1) * 378 * 1)%Z with 97146%Z.
  destruct (Z.ltb_spec 971 h), (Z.leb_spec (h * 100) 97146); simpl; lia.
Qed.

(** ** The widget's form of a document *)

Lemma append_assoc (a b c : string) : (a +:+ b) +:+ c = a +:+ (b +:+ c).
Proof.
  induction a as [|x a IH]; [done|].
  change (String x ((a +:+ b) +:+ c) = String x (a +:+ (b +:+ c))).
  by f_equal.
Qed.

Lemma append_nil_r (a : string) : a +:+ "" = a.
Proof.
  induction a as [|x a IH]; [done|].
  change (String x (a +:+ "") = String x a). by f_equal.
Qed.

Lemma nonempty_append (a b : string) : a ≠ "" → a +:+ b ≠ "".
Proof. by destruct a. Qed.

Lemma last_char_append (a b : string) :
  b ≠ "" → last_char (a +:+ b) = last_char b.
Proof.
  intros Hb. induction a as [|c a IH]; [done|].
  change (last_char (String c (a +:+ b)) = last_char b).
  cbn [last_char]. destruct (a +:+ b) eqn:Hab; [|done].
  destruct a; [|done]. by destruct b.
Qed.

Lemma join_cons_text (o : Op) (ops : list Op) :
  unitsText (join o ops) = op_text o +:+ unitsText ops.
Proof.
  unfold join. destruct o as [[a|k v] attrs]; [|done].
  destruct ops as [|[[b|k v] attrs'] rest]; [done| |done].
  cbn [insert attributes]. case_decide; [|done].
  unfold unitsText, getText, op_text. cbn [contents foldr insert].
  by rewrite append_assoc.
Qed.

Lemma getText_unitsText (q : Quill) : getText q = unitsText (contents q).
Proof. done. Qed.

Lemma unitsText_cons (o : Op) (ops : list Op) :
  unitsText (o :: ops) = op_text o +:+ unitsText ops.
Proof. done. Qed.

Lemma unitsText_app (a b : list Op) :
  unitsText (a ++ b) = unitsText a +:+ unitsText b.
Proof.
  induction a as [|o a IH]; [done|].
  rewrite <- app_comm_cons, !unitsText_cons, IH. by rewrite append_assoc.
Qed.

Lemma unitsText_merge_runs (l : list Op) : unitsText (merge_runs l) = unitsText l.
Proof.
  induction l as [|o l IH]; [done|].
  cbn [merge_runs foldr]. fold (merge_runs l).
  by rewrite join_cons_text, IH.
Qed.

Lemma unitsText_filter (l : list Op) :
  unitsText (List.filter nonempty_op l) = unitsText l.
Proof.
  induction l as [|o l IH]; [done|]. cbn [List.filter].
  destruct (nonempty_op o) eqn:Ho.
  - by rewrite !unitsText_cons, IH.
  - rewrite unitsText_cons, IH. unfold nonempty_op in Ho. unfold op_text.
    by destruct (insert o) as [[|]|].
Qed.

Lemma unitsText_terminate (l : list Op) :
  unitsText (terminate l)
  = unitsText l +:+ (if ends_last l then "" else newline).
Proof.
  unfold terminate, ends_last. destruct (last l) as [o|] eqn:Hl; simpl.
  - destruct (ends_with_newline o); [by rewrite append_nil_r|].
    by rewrite unitsText_app.
  - apply last_None in Hl as ->. done.
Qed.

Lemma unitsText_normalise (l : list Op) :
  unitsText (normalise l)
  = unitsText l
    +:+ (if ends_last (List.filter nonempty_op l) then "" else newline).
Proof.
  unfold normalise.
  by rewrite unitsText_merge_runs, unitsText_terminate, unitsText_filter.
Qed.

Lemma separate_cons (o : Op) (l : list Op) :
  separate (o :: l) = true ↔
  nonempty_op o = true ∧
  (∀ b, head l = Some b → joinable o b = false) ∧ separate l = true.
Proof.
  cbn [separate]. rewrite !andb_true_iff. destruct l as [|b l]; simpl.
  - split; [intros [[Ho _] _]|intros (Ho & _ & _)]; split_and!; done.
  - rewrite negb_true_iff. split.
    + intros [[Ho Hb] Hl]. split_and!; [done| |done]. by intros c [= <-].
    + intros (Ho & Hb & Hl). split_and!; [done| |done]. by apply Hb.
Qed.

Lemma separate_nonempty (l : list Op) :
  separate l = true → Forall (λ o, nonempty_op o = true) l.
Proof.
  induction l as [|o l IH]; [done|].
  intros (Ho & _ & Hl)%separate_cons. constructor; auto.
Qed.

Lemma join_separate (o : Op) (l : list Op) :
  nonempty_op o = true → separate l = true → separate (join o l) = true.
Proof.
  intros Ho Hl. unfold join.
  destruct (insert o) as [a|k v] eqn:Hio.
  - destruct l as [|b rest]; [apply separate_cons; by split_and!|].
    destruct (insert b) as [tb|k v] eqn:Hib.
    + apply separate_cons in Hl as (Hb & Hnext & Hrest).
      case_decide as Heq.
      * apply separate_cons. split_and!; [| |done].
        -- unfold nonempty_op in *. cbn [insert]. rewrite Hio in Ho.
           destruct a; [done|]. done.
        -- intros c Hc. specialize (Hnext c Hc). unfold joinable in *.
           cbn [insert attributes]. rewrite Hib in Hnext. by rewrite Heq.
      * apply separate_cons. split_and!; [done| |by apply separate_cons].
        intros c [= <-]. unfold joinable. rewrite Hio, Hib.
        by apply bool_decide_eq_false.
    + apply separate_cons. split_and!; [done| |done].
      intros c [= <-]. unfold joinable. by rewrite Hio, Hib.
  - apply separate_cons. split_and!; [done| |done].
    intros c _. unfold joinable. by rewrite Hio.
Qed.

Lemma merge_runs_separate (l : list Op) :
  Forall (λ o, nonempty_op o = true) l → separate (merge_runs l) = true.
Proof.
  induction 1 as [|o l Ho Hl IH]; [done|].
  cbn [merge_runs foldr]. by apply join_separate.
Qed.

Lemma join_id (o : Op) (l : list Op) :
  separate (o :: l) = true → join o l = o :: l.
Proof.
  intros (_ & Hnext & _)%separate_cons. unfold join.
  destruct (insert o) as [a|k v] eqn:Hio; [|done].
  destruct l as [|b rest]; [done|].
  destruct (insert b) as [tb|k v] eqn:Hib; [|done].
  case_decide as Heq; [|done].
  specialize (Hnext b eq_refl). unfold joinable in Hnext.
  rewrite Hio, Hib in Hnext. by apply bool_decide_eq_false in Hnext.
Qed.

Lemma merge_runs_id (l : list Op) : separate l = true → merge_runs l = l.
Proof.
  induction l as [|o l IH]; [done|]. intros Hsep.
  cbn [merge_runs foldr]. fold (merge_runs l).
  pose proof Hsep as (_ & _ & Hl)%separate_cons.
  rewrite IH by done. by apply join_id.
Qed.

Lemma filter_nonempty (l : list Op) :
  Forall (λ o, nonempty_op o = true) (List.filter nonempty_op l).
Proof.
  induction l as [|o l IH]; [constructor|]. cbn [List.filter].
  destruct (nonempty_op o) eqn:Ho; [by constructor|done].
Qed.

Lemma filter_nonempty_id (l : list Op) :
  Forall (λ o, nonempty_op o = true) l → List.filter nonempty_op l = l.
Proof.
  induction 1 as [|o l Ho Hl IH]; [done|]. cbn [List.filter].
  by rewrite Ho, IH.
Qed.

Lemma ends_last_cons (o : Op) (l : list Op) :
  ends_last (o :: l)
  = if decide (l = []) then ends_with_newline o else ends_last l.
Proof. unfold ends_last. by destruct l. Qed.

Lemma ends_last_join (o : Op) (l : list Op) :
  Forall (λ o, nonempty_op o = true) l →
  ends_last (join o l) = ends_last (o :: l).
Proof.
  intros Hl. unfold join.
  destruct (insert o) as [a|k v] eqn:Hio; [|done].
  destruct l as [|b rest]; [done|].
  destruct (insert b) as [tb|k v] eqn:Hib; [|done].
  case_decide as Heq; [|done].
  unfold ends_last. destruct rest as [|c rest]; [|done]. simpl.
  unfold ends_with_newline. cbn [insert]. rewrite Hib.
  rewrite last_char_append; [done|].
  apply Forall_cons_1 in Hl as [Hb _]. unfold nonempty_op in Hb.
  rewrite Hib in Hb. by destruct tb.
Qed.

Lemma merge_runs_nonempty (l : list Op) :
  Forall (λ o, nonempty_op o = true) l →
  Forall (λ o, nonempty_op o = true) (merge_runs l).
Proof. intros Hl. by apply separate_nonempty, merge_runs_separate. Qed.

Lemma join_ne (o : Op) (l : list Op) : join o l ≠ [].
Proof.
  unfold join. destruct (insert o); [|done].
  destruct l as [|b rest]; [done|].
  destruct (insert b); [|done]. by case_decide.
Qed.

Lemma merge_runs_nil (l : list Op) : merge_runs l = [] → l = [].
Proof.
  destruct l as [|o l]; [done|]. cbn [merge_runs foldr].
  intros H. by apply join_ne in H.
Qed.

Lemma ends_last_merge_runs (l : list Op) :
  Forall (λ o, nonempty_op o = true) l →
  ends_last (merge_runs l) = ends_last l.
Proof.
  induction 1 as [|o l Ho Hl IH]; [done|].
  cbn [merge_runs foldr]. fold (merge_runs l).
  rewrite ends_last_join by by apply merge_runs_nonempty.
  rewrite !ends_last_cons, IH.
  destruct l as [|b l]; [done|]. rewrite decide_False; [done|].
  intros H%merge_runs_nil. done.
Qed.

Lemma ends_last_terminate (l : list Op) : ends_last (terminate l) = true.
Proof.
  unfold terminate. destruct (last l) as [o|] eqn:Hl; [|done].
  destruct (ends_with_newline o) eqn:Ho.
  - unfold ends_last. by rewrite Hl.
  - unfold ends_last. by rewrite last_snoc.
Qed.

Lemma terminate_id (l : list Op) : ends_last l = true → terminate l = l.
Proof.
  unfold ends_last, terminate. destruct (last l) as [o|]; [|done].
  simpl. by intros ->.
Qed.

Lemma terminate_nonempty (l : list Op) :
  Forall (λ o, nonempty_op o = true) l →
  Forall (λ o, nonempty_op o = true) (terminate l).
Proof.
  intros Hl. unfold terminate. destruct (last l) as [o|].
  - destruct (ends_with_newline o); [done|].
    apply Forall_app. split; [done|]. by repeat constructor.
  - by repeat constructor.
Qed.

Lemma normalise_separate (l : list Op) : separate (normalise l) = true.
Proof.
  apply merge_runs_separate, terminate_nonempty, filter_nonempty.
Qed.

Lemma normalise_ends_last (l : list Op) : ends_last (normalise l) = true.
Proof.
  unfold normalise.
  rewrite ends_last_merge_runs by apply terminate_nonempty, filter_nonempty.
  apply ends_last_terminate.
Qed.

Lemma canonical_iff (l : list Op) :
  canonical l ↔ separate l = true ∧ ends_last l = true.
Proof.
  unfold canonical. split.
  - intros <-. split; [apply normalise_separate|apply normalise_ends_last].
  - intros [Hsep Hend]. unfold normalise.
    rewrite filter_nonempty_id by by apply separate_nonempty.
    rewrite terminate_id by done. by apply merge_runs_id.
Qed.

Lemma normalise_canonical (l : list Op) : canonical (normalise l).
Proof.
  apply canonical_iff.
  split; [apply normalise_separate|apply normalise_ends_last].
Qed.

Lemma ends_last_ne (l : list Op) : ends_last l = true → l ≠ [].
Proof. by intros H ->. Qed.

Lemma normalise_ne (l : list Op) : normalise l ≠ [].
Proof. apply ends_last_ne, normalise_ends_last. Qed.

Lemma separate_app (a b : list Op) :
  separate (a ++ b) = true → separate a = true ∧ separate b = true.
Proof.
  induction a as [|o a IH]; [done|].
  rewrite <- app_comm_cons. intros (Ho & Hnext & Hab)%separate_cons.
  destruct (IH Hab) as [Ha Hb]. split; [|done].
  apply separate_cons. split_and!; [done| |done].
  intros c Hc. apply Hnext. by destruct a; simplify_eq/=.
Qed.

Lemma ends_last_app (a b : list Op) :
  b ≠ [] → ends_last (a ++ b) = ends_last b.
Proof.
  intros Hb. unfold ends_last. destruct b as [|o b _] using rev_ind; [done|].
  by rewrite app_assoc, !last_snoc.
Qed.

(** What is left behind a cut in a document of the widget is one too. *)
Lemma canonical_suffix (a b : list Op) :
  canonical (a ++ b) → b ≠ [] → canonical b.
Proof.
  intros [Hsep Hend]%canonical_iff Hb. apply canonical_iff.
  split; [by apply separate_app in Hsep as [_ ?]|].
  by rewrite ends_last_app in Hend.
Qed.

(** A document of the widget reads as it is put in. *)
Lemma unitsText_canonical_prefix (a : list Op) :
  separate a = true →
  unitsText (normalise a)
  = unitsText a +:+ (if ends_last a then "" else newline).
Proof.
  intros Ha. rewrite unitsText_normalise.
  by rewrite filter_nonempty_id by by apply separate_nonempty.
Qed.

(** ** Emptiness is checked again by the deletion *)

Lemma isPageEmpty_newline c : isPageEmpty (mkQuill c [plain newline]) = true.
Proof. reflexivity. Qed.

Lemma isPageEmpty_nil c : isPageEmpty (mkQuill c []) = true.
Proof. reflexivity. Qed.

(** C10: for a page number above 1 whose registered editor holds content
    that is not empty, [deleteEmptyPage] answers [false] and hands the state
    back as it was: no page removed, the registry untouched, no renumbering.
    The emptiness test is made by the operation itself. *)
Theorem deleteEmptyPage_keeps_nonempty_page
    (s : State) (pageNum : nat) (editor : loc) :
  1 < pageNum →
  editors s !! pageNum = Some editor →
  isPageEmpty (quillAt s editor) = false →
  deleteEmptyPage pageNum s = Some (false, s).
Proof.
  intros Hnum Hed Hne. unfold deleteEmptyPage.
  rewrite decide_False by lia. rewrite Hed.
  destruct (getPageById s pageNum); [|done].
  by rewrite Hne.
Qed.

Lemma deleteEmptyPage_one (s : State) : deleteEmptyPage 1 s = Some (false, s).
Proof. reflexivity. Qed.

Lemma deleteEmptyPage_unregistered (s : State) (pageNum : nat) :
  editors s !! pageNum = None → deleteEmptyPage pageNum s = Some (false, s).
Proof.
  intros H. unfold deleteEmptyPage. case_decide; [done|]. by rewrite H.
Qed.

(** ** Content changes that no user made *)

Lemma updateStats_pages s : pages (updateStats s) = pages s.
Proof. reflexivity. Qed.

Lemma updateStats_editors s : editors (updateStats s) = editors s.
Proof. reflexivity. Qed.

Lemma updateStats_heap s : heap (updateStats s) = heap s.
Proof. reflexivity. Qed.

Lemma updateStats_currentPage s : currentPage (updateStats s) = currentPage s.
Proof. reflexivity. Qed.

Lemma on_text_change_programmatic chk source quill s :
  source ≠ User → on_text_change chk source quill s = Some (updateStats s).
Proof. by destruct source. Qed.

(** [setContents] never reaches the overflow check it was given. *)
Lemma setContents_eq quill ops s :
  setContents quill ops s =
  Some (updateStats
          (set_heap
             (alter (fun q => mkQuill (containerId q) (normalise ops)) quill
                (heap s)) s)).
Proof. reflexivity. Qed.

(** C9: a content-changed event whose origin is not the user never runs the
    overflow check, whatever that check would do: the handler only refreshes
    the statistics.  So the transfers made by a split or a merge, which are
    [setContents] calls, leave the pages, the registry and [currentPage] as
    they are and change the contents of the one editor they are applied
    to, which holds what the widget makes of the units. *)
Theorem programmatic_change_never_checks_overflow
    (scrollHeight : list Op → Z) (source : Source) (quill : loc) (s : State) :
  source ≠ User →
  (∀ chk, on_text_change chk source quill s = Some (updateStats s)) ∧
  text_change scrollHeight source quill s = Some (updateStats s) ∧
  pages (updateStats s) = pages s ∧
  editors (updateStats s) = editors s ∧
  heap (updateStats s) = heap s ∧
  currentPage (updateStats s) = currentPage s ∧
  ∀ target ops, ∃ s',
    setContents target ops s = Some s' ∧
    pages s' = pages s ∧ editors s' = editors s ∧
    currentPage s' = currentPage s ∧ timers s' = timers s ∧
    heap s'
    = alter (fun q => mkQuill (containerId q) (normalise ops)) target
        (heap s).
Proof.
  intros Hsrc. split; [|split].
  - intros chk. by apply on_text_change_programmatic.
  - by apply on_text_change_programmatic.
  - repeat split. intros target ops. eexists. rewrite setContents_eq.
    by repeat split.
Qed.

Lemma programmatic_change_never_checks_overflow_witness :
  Api ≠ User ∧
  text_change never_fits Api 0 loaded_document
    = Some (updateStats loaded_document).
Proof.
  split; [discriminate|].
  apply (programmatic_change_never_checks_overflow never_fits Api 0
           loaded_document).
  discriminate.
Defined.

(** ** The registry in key order *)

Lemma keys_Permutation (m : gmap nat loc) : keys m ≡ₚ elements (dom m).
Proof. apply merge_sort_Permutation. Qed.

Lemma elem_of_keys (m : gmap nat loc) k : k ∈ keys m ↔ is_Some (m !! k).
Proof. by rewrite keys_Permutation, elem_of_elements, elem_of_dom. Qed.

Lemma keys_NoDup (m : gmap nat loc) : NoDup (keys m).
Proof. rewrite keys_Permutation. apply NoDup_elements. Qed.

Lemma keys_Sorted (m : gmap nat loc) : Sorted (≤) (keys m).
Proof. apply (Sorted_merge_sort (≤)). Qed.

Lemma merge_sort_Sorted (l : list nat) : Sorted (≤) l → merge_sort (≤) l = l.
Proof.
  intros Hl. apply (Sorted_unique (≤)); [|done|apply merge_sort_Permutation].
  apply (Sorted_merge_sort (≤)).
Qed.

Lemma StronglySorted_le_lt (l : list nat) :
  StronglySorted (≤) l → NoDup l → StronglySorted lt l.
Proof.
  induction 1 as [|x l Hl IH Hx]; intros Hnd; [constructor|].
  apply NoDup_cons in Hnd as [Hni Hnd]. constructor; [auto|].
  apply Forall_forall. intros y Hy.
  rewrite Forall_forall in Hx. specialize (Hx y Hy).
  assert (x ≠ y) by (intros ->; done). lia.
Qed.

Lemma keys_ascending (m : gmap nat loc) : StronglySorted lt (keys m).
Proof.
  apply StronglySorted_le_lt; [|apply keys_NoDup].
  apply Sorted_StronglySorted; [apply _|apply keys_Sorted].
Qed.

(** A registry whose keys are [1..n] enumerates them as such. *)
Lemma keys_dense (m : gmap nat loc) n :
  (∀ k, is_Some (m !! k) ↔ 1 ≤ k ≤ n) → keys m = seq 1 n.
Proof.
  intros Hm. apply (Sorted_unique (≤)); [apply keys_Sorted| |].
  - apply StronglySorted_Sorted. clear Hm. generalize 1.
    induction n as [|n IH]; intros a; simpl; constructor; [apply IH|].
    apply Forall_forall. intros y [? ?]%elem_of_seq. lia.
  - apply NoDup_Permutation; [apply keys_NoDup|apply NoDup_seq|].
    intros k. rewrite elem_of_keys, elem_of_seq, Hm. lia.
Qed.

Lemma foldr_max_seq b a n :
  b ≤ a → foldr Nat.max b (seq a n) = if decide (n = 0) then b else a + n - 1.
Proof.
  revert a. induction n as [|n IH]; intros a Hb; simpl; [done|].
  rewrite IH by lia. repeat case_decide; lia.
Qed.

Lemma updatePageCount_dense s n :
  1 ≤ n → (∀ k, is_Some (editors s !! k) ↔ 1 ≤ k ≤ n) →
  updatePageCount s =
  Some (set_currentPage n (set_totalPagesDisplay (size (editors s)) s)).
Proof.
  intros Hn Hm. unfold updatePageCount. rewrite (keys_dense _ n Hm).
  destruct n as [|n]; [lia|]. simpl. rewrite foldr_max_seq by lia.
  do 3 f_equal. case_decide; lia.
Qed.

(** ** Plain-text export *)

Lemma sorted_entries_keys (m : gmap nat loc) :
  sorted_entries m = omap (fun k => pair k <$> m !! k) (keys m).
Proof. unfold sorted_entries. by rewrite merge_sort_Sorted by apply keys_Sorted. Qed.

Lemma foldl_sections s (l : list nat) (acc : string) :
  (∀ k, k ∈ l → is_Some (editors s !! k)) →
  foldl (fun allText '(pageNum, editor) =>
           (allText +:+ page_separator pageNum)
             +:+ getText (quillAt s editor))
        acc (omap (fun k => pair k <$> editors s !! k) l)
  = acc +:+ concat_strings
              ((fun k => page_separator k +:+ pageText s k) <$> l).
Proof.
  revert acc. induction l as [|k l IH]; intros acc Hl; simpl.
  - by rewrite append_nil_r.
  - destruct (Hl k) as [e He]; [left|]. unfold pageText at 1.
    rewrite He. simpl. rewrite IH by (intros; apply Hl; by right).
    by rewrite !append_assoc.
Qed.

Lemma exportAsText_content s :
  content (exportAsText s)
  = concat_strings
      ((fun k => page_separator k +:+ pageText s k) <$> keys (editors s)).
Proof.
  unfold exportAsText. simpl. rewrite sorted_entries_keys.
  rewrite foldl_sections; [done|]. intros k. by rewrite elem_of_keys.
Qed.

(** C8, as the code has it: the three pages in which "a", "b", "c" were
    typed, whatever the order their editors were registered in, export as
    the sections of pages 1, 2, 3 in that order, each behind its
    [--- Page N ---] line and each with the line terminator that the widget
    keeps at the end of a page's text; and for every registry the export
    is the concatenation, over the page numbers in ascending order, of the
    separator of the page followed by the text of its editor. *)
Theorem exportAsText_sections_ascending :
  content (exportAsText abc_document)
  = newline +:+ newline +:+ "--- Page 1 ---" +:+ newline +:+ newline
    +:+ "a" +:+ newline
    +:+ newline +:+ newline +:+ "--- Page 2 ---" +:+ newline +:+ newline
    +:+ "b" +:+ newline
    +:+ newline +:+ newline +:+ "--- Page 3 ---" +:+ newline +:+ newline
    +:+ "c" +:+ newline
  ∧ ∀ s : State, ∃ ranks : list nat,
      StronglySorted lt ranks ∧
      (∀ k, k ∈ ranks ↔ is_Some (editors s !! k)) ∧
      content (exportAsText s)
      = concat_strings
          ((fun k => page_separator k +:+ pageText s k) <$> ranks).
Proof.
  split; [by vm_compute|].
  intros s. exists (keys (editors s)). split; [apply keys_ascending|].
  split; [apply elem_of_keys|apply exportAsText_content].
Qed.

(** C8 as stated fails: the editors of the three pages hold their texts in
    the widget's form, with the line terminator, and the export is not the
    string of the claim, which has none behind "a", "b" and "c". *)
Lemma exportAsText_keeps_line_terminators :
  (∀ q, q < 3 → canonical (contents (quillAt abc_document q))) ∧
  pageText abc_document <$> [1; 2; 3]
  = ["a" +:+ newline; "b" +:+ newline; "c" +:+ newline] ∧
  content (exportAsText abc_document)
  ≠ newline +:+ newline +:+ "--- Page 1 ---" +:+ newline +:+ newline +:+ "a"
    +:+ newline +:+ newline +:+ "--- Page 2 ---" +:+ newline +:+ newline +:+ "b"
    +:+ newline +:+ newline +:+ "--- Page 3 ---" +:+ newline +:+ newline +:+ "c".
Proof.
  split_and!.
  - intros q Hq. by destruct q as [|[|[|q]]]; [..|lia].
  - done.
  - by vm_compute.
Qed.

(** The order in which the editors were put into the registry plays no
    part. *)
Lemma exportAsText_creation_order s (l l' : list (nat * loc)) :
  NoDup l.*1 → l ≡ₚ l' →
  exportAsText (set_editors (list_to_map l) s)
  = exportAsText (set_editors (list_to_map l') s).
Proof. intros Hnd Hp. by rewrite (list_to_map_proper l l' Hnd Hp). Qed.

(** ** The editors on the heap *)

Lemma quillAt_alter_eq s quill f :
  quill < length (heap s) →
  quillAt (set_heap (alter f quill (heap s)) s) quill = f (quillAt s quill).
Proof.
  intros Hq. unfold quillAt. simpl.
  destruct (lookup_lt_is_Some_2 _ _ Hq) as [Q HQ].
  rewrite !list_lookup_total_alt, list_lookup_alter_eq, HQ. done.
Qed.

Lemma quillAt_alter_ne s quill other f :
  quill ≠ other →
  quillAt (set_heap (alter f quill (heap s)) s) other = quillAt s other.
Proof.
  intros Hq. unfold quillAt. simpl.
  by rewrite !list_lookup_total_alt, list_lookup_alter_ne.
Qed.

Lemma containerId_alter s quill other ops :
  containerId
    (quillAt (set_heap (alter (fun q => mkQuill (containerId q) ops) quill
                          (heap s)) s) other)
  = containerId (quillAt s other).
Proof.
  destruct (decide (quill = other)) as [->|Hne].
  - destruct (decide (other < length (heap s))) as [Hlt|Hge].
    + by rewrite quillAt_alter_eq.
    + unfold quillAt. simpl. rewrite !list_lookup_total_alt.
      rewrite list_lookup_alter_eq.
      by rewrite (lookup_ge_None_2 (heap s) other) by lia.
  - by rewrite quillAt_alter_ne.
Qed.

(** The state after [setContents], field by field. *)
Lemma setContents_Some quill ops s s' :
  setContents quill ops s = Some s' →
  pages s' = pages s ∧ editors s' = editors s ∧
  currentPage s' = currentPage s ∧ timers s' = timers s ∧
  cursor s' = cursor s ∧ activeEditor s' = activeEditor s ∧
  length (heap s') = length (heap s) ∧
  (∀ other, containerId (quillAt s' other) = containerId (quillAt s other)) ∧
  (∀ other, quill ≠ other → quillAt s' other = quillAt s other) ∧
  (quill < length (heap s) → contents (quillAt s' quill) = normalise ops).
Proof.
  rewrite setContents_eq. intros [= <-]. split_and!; try done.
  - simpl. by rewrite length_alter.
  - intros other. apply containerId_alter.
  - intros other Hne. by apply quillAt_alter_ne.
  - intros Hlt. change (quillAt (updateStats ?x) quill) with (quillAt x quill).
    by rewrite quillAt_alter_eq.
Qed.

(** ** The split loop *)

Lemma last_removelast {A} (l : list A) x :
  last l = Some x → removelast l ++ [x] = l.
Proof.
  induction l as [|y l IH]; [done|]. destruct l as [|z l].
  - by intros [= ->].
  - intros Hl. change (y :: removelast (z :: l) ++ [x] = y :: z :: l).
    f_equal. by apply IH.
Qed.

Lemma length_removelast {A} (l : list A) :
  length (removelast l) = length l - 1.
Proof.
  induction l as [|y l IH]; [done|]. destruct l as [|z l]; [done|].
  change (S (length (removelast (z :: l))) = S (length (z :: l)) - 1).
  rewrite IH. simpl. lia.
Qed.

Section Split.

Variable scrollHeight : list Op → Z.
Variables currentQuill editorElement : loc.

Lemma split_body_Some v :
  split_cond v = true →
  ∃ lastOp v',
    split_body scrollHeight currentQuill editorElement v = Some v' ∧
    ops v' ++ [lastOp] = ops v ∧
    1 ≤ length (ops v') ∧
    moveOps v' = lastOp :: moveOps v ∧
    setContents currentQuill (ops v') (state v) = Some (state v').
Proof.
  unfold split_cond. intros [_ Hlen%Nat.ltb_lt]%andb_true_iff.
  unfold split_body.
  destruct (last (ops v)) as [lastOp|] eqn:Hlast.
  - exists lastOp. eexists. simpl. split; [done|]. simpl.
    split; [by apply last_removelast|].
    rewrite length_removelast. split; [lia|done].
  - apply last_None in Hlast. rewrite Hlast in Hlen. simpl in Hlen. lia.
Qed.

(** The loop, run from any values of its variables. *)
Lemma split_loop_run (fuel : nat) (v : SplitVars) :
  currentQuill < length (heap (state v)) →
  length (ops v) ≤ S fuel →
  ∃ (v' : SplitVars) (popped : list Op),
    while_loop split_cond
      (split_body scrollHeight currentQuill editorElement) fuel v = Some v' ∧
    split_cond v' = false ∧
    ops v' ++ popped = ops v ∧
    moveOps v' = popped ++ moveOps v ∧
    (ops v = [] ∨ 1 ≤ length (ops v')) ∧
    (split_cond v = true → popped ≠ []) ∧
    (popped = [] → v' = v) ∧
    (popped ≠ [] →
     contents (quillAt (state v') currentQuill) = normalise (ops v') ∧
     totalHeight v' = elementHeight scrollHeight (state v') editorElement) ∧
    (editorElement = currentQuill →
     ∀ extra rest, extra ≠ [] → rest ≠ [] →
       ops v' ++ extra ++ rest = ops v →
       exceeds_page (scrollHeight (normalise (ops v' ++ extra))) = true) ∧
    pages (state v') = pages (state v) ∧
    editors (state v') = editors (state v) ∧
    currentPage (state v') = currentPage (state v) ∧
    length (heap (state v')) = length (heap (state v)) ∧
    ∀ other, other ≠ currentQuill →
      quillAt (state v') other = quillAt (state v) other.
Proof.
  assert (Hstop : ∀ w : SplitVars,
            split_cond w = false →
            ∀ extra rest, extra ≠ [] → rest ≠ [] →
              ops w ++ extra ++ rest = ops w → False).
  { intros w _ extra rest Hextra _ Heq.
    apply (f_equal length) in Heq. rewrite !length_app in Heq.
    destruct extra; [done|]. simpl in Heq. lia. }
  revert v. induction fuel as [|fuel IH]; intros v Hq Hlen.
  - exists v, []. simpl. destruct (split_cond v) eqn:Hcond.
    + unfold split_cond in Hcond.
      apply andb_true_iff in Hcond as [_ ?%Nat.ltb_lt]. lia.
    + rewrite app_nil_r. split_and!; try done.
      * destruct (ops v); [by left|right; simpl; lia].
      * intros _ extra rest H1 H2 H3. by destruct (Hstop v Hcond extra rest).
  - simpl. destruct (split_cond v) eqn:Hcond.
    + destruct (split_body_Some v Hcond)
        as (lastOp & v1 & Hbody & Hops & Hone & Hmove & Hset).
      rewrite Hbody.
      assert (Hheight : totalHeight v1
                        = elementHeight scrollHeight (state v1) editorElement).
      { unfold split_body in Hbody.
        destruct (last (ops v)); [|done]. simpl in Hbody.
        destruct (setContents _ _ _); [|done]. by injection Hbody as <-. }
      apply setContents_Some in Hset
        as (Hp & He & Hcp & _ & _ & _ & Hh & _ & Hoth & Hcont).
      destruct (IH v1) as (v' & popped & Hrun & Hend & Hpre & Hmv & Hmin
                           & _ & Hsame & Hc' & Hmid & Hp' & He' & Hcp' & Hh'
                           & Hoth').
      { by rewrite Hh. }
      { rewrite <- Hops, length_app in Hlen. simpl in Hlen. lia. }
      exists v', (popped ++ [lastOp]). simpl. rewrite Hrun.
      split_and!; try done; try congruence.
      * by rewrite app_assoc, Hpre.
      * by rewrite Hmv, Hmove, <- app_assoc.
      * right. destruct Hmin as [Hnil|?]; [|done].
        rewrite Hnil in Hone. simpl in Hone. lia.
      * intros _. by destruct popped.
      * by destruct popped.
      * intros _. destruct popped as [|o popped]; [|by apply Hc'].
        rewrite (Hsame eq_refl). split; [by apply Hcont|done].
      * intros Hel extra rest Hextra Hrest Heq.
        rewrite <- Hops, <- Hpre, <- !app_assoc in Heq.
        apply app_inv_head in Heq.
        destruct rest as [|r rest _] using rev_ind; [done|].
        rewrite app_assoc in Heq.
        apply app_inj_tail in Heq as [Heq _].
        destruct rest as [|r' rest].
        -- rewrite app_nil_r in Heq. subst extra. rewrite Hpre.
           destruct (split_cond v1) eqn:Hcond1.
           ++ unfold split_cond in Hcond1.
              apply andb_true_iff in Hcond1 as [Hover _].
              rewrite Hheight in Hover. unfold elementHeight in Hover.
              rewrite Hel, Hcont in Hover by lia. done.
           ++ destruct fuel; simpl in Hrun; rewrite Hcond1 in Hrun;
                injection Hrun as <-; rewrite <- (app_nil_r (ops v1)) in Hpre
                  at 2; apply app_inv_head in Hpre; by subst popped.
        -- apply (Hmid Hel extra (r' :: rest)); [done|done|].
           by rewrite Heq.
      * intros other Hne. rewrite Hoth' by done. apply Hoth. congruence.
    + exists v, []. rewrite app_nil_r. split_and!; try done.
      * destruct (ops v); [by left|right; simpl; lia].
      * intros _ extra rest H1 H2 H3. by destruct (Hstop v Hcond extra rest).
Qed.

(** C3: whatever the layout reports, the loop of [moveOverflowContent]
    comes to its end within as many rounds as the source page has units
    less one, with its condition false; what it popped from the end of the
    source page is what it put in front of the units to move; and a source
    page that had a unit still has one, because a round only runs while
    more than one unit is left.  The source editor holds the units that
    were not popped, in the form the widget gives them. *)
Theorem split_loop_terminates_keeping_a_unit (fuel : nat) (v : SplitVars) :
  currentQuill < length (heap (state v)) →
  contents (quillAt (state v) currentQuill) = normalise (ops v) →
  length (ops v) ≤ S fuel →
  ∃ (v' : SplitVars) (popped : list Op),
    while_loop split_cond
      (split_body scrollHeight currentQuill editorElement) fuel v = Some v' ∧
    split_cond v' = false ∧
    ops v' ++ popped = ops v ∧
    moveOps v' = popped ++ moveOps v ∧
    (ops v = [] ∨ 1 ≤ length (ops v')) ∧
    contents (quillAt (state v') currentQuill) = normalise (ops v').
Proof.
  intros Hq Hc Hlen.
  destruct (split_loop_run fuel v Hq Hlen)
    as (v' & popped & Hrun & Hend & Hpre & Hmv & Hone & _ & Hsame & Hc' & _).
  exists v', popped. split_and!; try done.
  destruct popped as [|o popped]; [by rewrite (Hsame eq_refl)|].
  by apply Hc'.
Qed.

End Split.

(** ** Well-formed states are kept *)

Lemma same_shape_refl s : same_shape s s.
Proof. by repeat split. Qed.

Lemma same_shape_trans s1 s2 s3 :
  same_shape s1 s2 → same_shape s2 s3 → same_shape s1 s3.
Proof.
  intros (? & ? & ? & ? & H12) (? & ? & ? & ? & H23).
  repeat split; try congruence.
Qed.

Lemma wf_same_shape s s' : same_shape s s' → wf s → wf s'.
Proof.
  intros (Hp & He & Hc & Hh & Hid) [H1 H2 H3 H4 H5 H6].
  split; rewrite ?Hp, ?He, ?Hc, ?Hh; try done.
  - intros i p Hi. destruct (H3 i p Hi) as (? & ? & ? & q & ? & ? & ? & ?).
    split_and!; try done. exists q. by rewrite ?Hh, Hid.
  - intros p q ??. rewrite Hid. eauto.
Qed.

Lemma setContents_same_shape quill ops s s' :
  setContents quill ops s = Some s' → same_shape s s'.
Proof.
  intros (? & ? & ? & _ & _ & _ & ? & ? & _)%setContents_Some.
  by repeat split.
Qed.

Lemma wf_registry s k :
  wf s → is_Some (editors s !! k) ↔ 1 ≤ k ≤ length (pages s).
Proof.
  intros Hwf. split.
  - intros [q Hq]. by eapply wf_editors.
  - intros [Hk1 Hkn]. destruct k as [|i]; [lia|].
    destruct (lookup_lt_is_Some_2 (pages s) i) as [p Hp]; [lia|].
    destruct (wf_pages s Hwf i p Hp) as (_ & _ & _ & q & _ & Hq & _).
    by exists q.
Qed.

Lemma wf_page_lookup s i p :
  wf s → pages s !! i = Some p →
  ∃ q, p = mkPage (S i) (S i) (S i) (Some q) ∧ editors s !! S i = Some q ∧
       q < length (heap s) ∧ S i ≤ containerId (quillAt s q).
Proof.
  intros Hwf Hp.
  destruct (wf_pages s Hwf i p Hp) as (? & ? & ? & q & ? & ? & ? & ?).
  exists q. destruct p; simpl in *; subst. done.
Qed.

Lemma wf_getPageById s k :
  wf s → 1 ≤ k ≤ length (pages s) → getPageById s k = Some (k - 1).
Proof.
  intros Hwf [Hk1 Hkn]. unfold getPageById.
  destruct (lookup_lt_is_Some_2 (pages s) (k - 1)) as [p Hp]; [lia|].
  assert (list_find (λ p, page_id p = k) (pages s) = Some (k - 1, p)) as ->;
    [|done].
  apply list_find_Some. split; [done|].
  destruct (wf_page_lookup s _ p Hwf Hp) as (q & -> & _). split; [simpl; lia|].
  intros j y Hy Hj. destruct (wf_page_lookup s _ y Hwf Hy) as (q' & -> & _).
  simpl. lia.
Qed.

Lemma wf_rankOf s i p q :
  wf s → pages s !! i = Some p → mounted p = Some q → rankOf s q = Some (S i).
Proof.
  intros Hwf Hp Hq. unfold rankOf.
  assert (list_find (λ p, mounted p = Some q) (pages s) = Some (i, p)) as ->;
    [|done].
  apply list_find_Some. split_and!; [done..|].
  intros j y Hy Hj Hm.
  assert (j = i); [|lia].
  eapply (wf_mounted_inj s Hwf); [done..|congruence].
Qed.

Lemma rankOf_Some s q r :
  rankOf s q = Some r →
  ∃ p, r = S (r - 1) ∧ pages s !! (r - 1) = Some p ∧ mounted p = Some q.
Proof.
  unfold rankOf. intros ([i p] & Hf & ->)%fmap_Some. simpl.
  apply list_find_Some in Hf as (Hp & Hq & _).
  exists p. rewrite Nat.sub_0_r. done.
Qed.

(** *** Page creation *)

(** What [createNewPage] leaves behind in a well-formed state: a page
    [N + 1] at the end of the document with a fresh editor in it. *)
Lemma createNewPage_wf s :
  wf s →
  ∃ s', createNewPage s = Some s' ∧
    pages s' = pages s ++
      [mkPage (S (length (pages s))) (S (length (pages s)))
         (S (length (pages s))) (Some (length (heap s)))] ∧
    editors s' = <[S (length (pages s)) := length (heap s)]> (editors s) ∧
    heap s' = heap s ++ [mkQuill (S (length (pages s))) [plain newline]] ∧
    currentPage s' = S (length (pages s)) ∧
    cursor s' = cursor s ∧ timers s' = timers s ∧
    activeEditor s' = activeEditor s.
Proof.
  intros Hwf. unfold createNewPage, createQuillEditor. cbn.
  rewrite (wf_currentPage s Hwf).
  set (n := length (pages s)). set (new := mkPage (S n) (S n) (S n) None).
  assert (list_find (λ p, editor_id p = S n) (pages s ++ [new])
          = Some (n, new)) as ->.
  { apply list_find_Some. split_and!.
    - by apply list_lookup_middle.
    - done.
    - intros j y Hy Hj. rewrite lookup_app_l in Hy by done.
      destruct (wf_page_lookup s _ y Hwf Hy) as (q' & -> & _). simpl. lia. }
  cbn. rewrite updatePageCount_dense with (n := S n); [|lia|].
  - eexists. split; [done|]. cbn. split_and!; try done.
    replace n with (length (pages s) + 0) at 1 by (unfold n; lia).
    by rewrite alter_app_r.
  - intros k. cbn. rewrite lookup_insert_is_Some.
    rewrite (wf_registry s k Hwf). fold n.
    destruct (decide (S n = k)); [|lia]. subst. split; [lia|by left].
Qed.

Lemma createNewPage_keeps_wf s s' : wf s → createNewPage s = Some s' → wf s'.
Proof.
  intros Hwf Hs'.
  destruct (createNewPage_wf s Hwf)
    as (s1 & Hs1 & Hp & He & Hh & Hc & _).
  rewrite Hs1 in Hs'. injection Hs' as ->.
  assert (Hids : ∀ q, q < length (heap s) →
            containerId (quillAt s' q) = containerId (quillAt s q)).
  { intros q Hq. unfold quillAt. rewrite Hh.
    by rewrite lookup_total_app_l. }
  split; rewrite ?Hp, ?He, ?Hc, ?Hh, ?length_app; simpl.
  - lia.
  - lia.
  - intros i p [[_ Hi]|[-> <-]]%lookup_snoc_Some.
    + destruct (wf_page_lookup s _ p Hwf Hi) as (q & -> & Hq & Hlt & Hid).
      simpl. split_and!; try done. exists q. split_and!; try done.
      * rewrite lookup_insert_ne; [done|]. apply lookup_lt_Some in Hi. lia.
      * lia.
      * by rewrite Hids.
    + simpl. split_and!; try done. eexists. split_and!; try done.
      * by rewrite lookup_insert_eq.
      * lia.
      * unfold quillAt. rewrite Hh. rewrite lookup_total_app_r by done.
        by rewrite Nat.sub_diag.
  - intros p q Hp0 Hq. pose proof (wf_nonempty s Hwf).
    rewrite lookup_app_l in Hp0 by lia.
    destruct (wf_page_lookup s _ p Hwf Hp0) as (q' & -> & _ & Hlt & _).
    simpl in Hq. simplify_eq. rewrite Hids by done.
    by eapply (wf_first s Hwf).
  - intros k q. rewrite lookup_insert_Some.
    intros [[<- _]|[_ Hk]]; [lia|].
    apply (wf_editors s Hwf) in Hk. lia.
  - intros i j p p' Hi Hj Hm.
    apply lookup_snoc_Some in Hi as [[_ Hi]|[-> <-]];
      apply lookup_snoc_Some in Hj as [[_ Hj]|[-> <-]].
    + by eapply (wf_mounted_inj s Hwf).
    + destruct (wf_page_lookup s _ p Hwf Hi) as (q & -> & _ & Hlt & _).
      simpl in Hm. simplify_eq. lia.
    + destruct (wf_page_lookup s _ p' Hwf Hj) as (q & -> & _ & Hlt & _).
      simpl in Hm. simplify_eq. lia.
    + done.
Qed.

(** *** Renumbering *)

Lemma renumber_fold (E : gmap nat loc) (l : list PageElem) :
  ∀ (n : nat) (m : gmap nat loc) (done : list PageElem),
    (∀ j, n ≤ j → m !! j = None) →
    ∃ M : gmap nat loc,
      foldl (renumber_step E) (n, m, done) l
      = (n + length l, M,
         done ++ imap (λ i p, mkPage (n + i) (n + i) (n + i) (mounted p)) l) ∧
      ∀ j, M !! j = if decide (j < n) then m !! j
                    else l !! (j - n) ≫= (λ p, E !! page_id p).
Proof.
  induction l as [|p l IH]; intros n m done Hm.
  - exists m. simpl. rewrite Nat.add_0_r, app_nil_r. split; [done|].
    intros j. case_decide; [done|]. apply Hm. lia.
  - simpl.
    set (m' := match E !! page_id p with
               | Some e => <[n := e]> m
               | None => m
               end).
    destruct (IH (S n) m' (done ++ [mkPage n n n (mounted p)])) as (M & HM & Hl).
    { intros j Hj. unfold m'. destruct (E !! page_id p).
      - rewrite lookup_insert_ne by lia. apply Hm. lia.
      - apply Hm. lia. }
    exists M. split.
    + rewrite HM. f_equal; [f_equal; lia|].
      rewrite <- app_assoc. simpl. rewrite Nat.add_0_r. do 2 f_equal.
      apply imap_ext. intros i x _. simpl.
      by replace (n + S i) with (S (n + i)) by lia.
    + intros j. rewrite Hl. unfold m'.
      destruct (decide (j < n)) as [Hlt|Hge].
      * rewrite decide_True by lia.
        destruct (E !! page_id p); [|done]. by rewrite lookup_insert_ne by lia.
      * destruct (decide (j = n)) as [->|Hne].
        -- rewrite decide_True by lia. rewrite Nat.sub_diag. simpl.
           destruct (E !! page_id p); [by rewrite lookup_insert_eq|].
           apply Hm. lia.
        -- rewrite decide_False by lia.
           replace (j - n) with (S (j - S n)) by lia. done.
Qed.

(** [renumberPages] gives the pages the ids [1..N] in document order, keeps
    for each the editor that was registered under its old id, and sets
    [currentPage] to [N]. *)
Lemma renumberPages_spec s :
  pages (renumberPages s)
  = imap (λ i p, mkPage (S i) (S i) (S i) (mounted p)) (pages s) ∧
  currentPage (renumberPages s) = length (pages s) ∧
  (∀ j, editors (renumberPages s) !! j
        = if decide (j < 1) then None
          else pages s !! (j - 1) ≫= (λ p, editors s !! page_id p)) ∧
  heap (renumberPages s) = heap s ∧ timers (renumberPages s) = timers s ∧
  cursor (renumberPages s) = cursor s ∧
  activeEditor (renumberPages s) = activeEditor s.
Proof.
  unfold renumberPages.
  destruct (renumber_fold (editors s) (pages s) 1 ∅ []) as (M & -> & HM).
  { intros j _. apply lookup_empty. }
  simpl. split_and!; try done. lia.
Qed.

Lemma page_ranks_renumberPages s :
  page_ranks (renumberPages s) = seq 1 (length (pages s)).
Proof.
  unfold page_ranks. destruct (renumberPages_spec s) as (-> & _).
  rewrite fmap_imap. apply list_eq. intros i.
  rewrite list_lookup_imap.
  destruct (pages s !! i) as [p|] eqn:Hp; simpl.
  - apply lookup_lt_Some in Hp. by rewrite lookup_seq_lt.
  - apply lookup_ge_None in Hp. symmetry. apply lookup_ge_None.
    by rewrite length_seq.
Qed.

(** *** Taking a page out *)

(** A page of rank at least 2 leaves the document and the registry, the
    rest is renumbered and counted. *)
Lemma remove_page_wf s s1 r :
  wf s → 2 ≤ r ≤ length (pages s) →
  pages s1 = delete (r - 1) (pages s) →
  editors s1 = delete r (editors s) →
  length (heap s1) = length (heap s) →
  (∀ q, containerId (quillAt s1 q) = containerId (quillAt s q)) →
  ∃ s3, updatePageCount (renumberPages s1) = Some s3 ∧ wf s3 ∧
    mounted <$> pages s3 = delete (r - 1) (mounted <$> pages s) ∧
    currentPage s3 = length (pages s) - 1 ∧
    length (pages s3) = length (pages s) - 1 ∧
    heap s3 = heap s1 ∧ timers s3 = timers s1 ∧ cursor s3 = cursor s1 ∧
    activeEditor s3 = activeEditor s1.
Proof.
  intros Hwf Hr Hp1 He1 Hh1 Hid1.
  destruct (renumberPages_spec s1) as (Hp2 & Hc2 & He2 & Hh2 & Ht2 & Hcu2 & Ha2).
  set (s2 := renumberPages s1) in *.
  assert (Hlen : length (pages s1) = length (pages s) - 1).
  { rewrite Hp1, length_delete; [done|]. apply lookup_lt_is_Some_2. lia. }
  assert (Hold : ∀ i p, pages s1 !! i = Some p →
            ∃ i' q, (i' = i ∧ i < r - 1 ∨ i' = S i ∧ r - 1 ≤ i) ∧
              pages s !! i' = Some p ∧
              p = mkPage (S i') (S i') (S i') (Some q) ∧
              editors s1 !! S i' = Some q ∧ q < length (heap s) ∧
              S i' ≤ containerId (quillAt s q)).
  { intros i p Hi. rewrite Hp1 in Hi.
    destruct (decide (i < r - 1)) as [Hlt|Hge].
    - rewrite list_lookup_delete_lt in Hi by done.
      destruct (wf_page_lookup s _ p Hwf Hi) as (q & -> & Hq & ? & ?).
      exists i, q. split_and!; try done; [left; lia|].
      rewrite He1, lookup_delete_ne by lia. done.
    - rewrite list_lookup_delete_ge in Hi by lia.
      destruct (wf_page_lookup s _ p Hwf Hi) as (q & -> & Hq & ? & ?).
      exists (S i), q. split_and!; try done; [right; lia|].
      rewrite He1, lookup_delete_ne by lia. done. }
  assert (Hreg : ∀ j, is_Some (editors s2 !! j) ↔ 1 ≤ j ≤ length (pages s) - 1).
  { intros j. rewrite He2. case_decide.
    - split; [by intros [? ?]|lia].
    - destruct (pages s1 !! (j - 1)) as [p|] eqn:Hp; simpl.
      + destruct (Hold _ _ Hp) as (i' & q & _ & _ & -> & Hq & _). simpl.
        rewrite Hq. apply lookup_lt_Some in Hp. split; [lia|by eexists].
      + apply lookup_ge_None in Hp. split; [by intros [? ?]|lia]. }
  assert (Hlen2 : length (pages s2) = length (pages s) - 1).
  { by rewrite Hp2, length_imap. }
  rewrite (updatePageCount_dense s2 (length (pages s) - 1)) by (done || lia).
  eexists. split; [done|]. simpl.
  split; [|split_and!; try done; try congruence].
  - split; simpl.
    + rewrite Hlen2. lia.
    + by rewrite Hlen2.
    + intros i p. rewrite Hp2, list_lookup_imap.
      intros (p0 & Hp0 & ->)%fmap_Some. simpl. split_and!; try done.
      destruct (Hold _ _ Hp0) as (i' & q & _ & _ & -> & Hq & Hlt & Hcid).
      exists q. simpl. split_and!; try done.
      * rewrite He2. rewrite decide_False by lia. simpl.
        rewrite Nat.sub_0_r, Hp0. simpl. done.
      * unfold quillAt. simpl. rewrite Hh2. fold (quillAt s1 q). congruence.
      * unfold quillAt. simpl. rewrite Hh2. fold (quillAt s1 q).
        rewrite Hid1. destruct (Hold _ _ Hp0) as (i'' & q'' & Hi'' & _ & Heq & _).
        simplify_eq. lia.
    + intros p q. rewrite Hp2, list_lookup_imap.
      intros (p0 & Hp0 & ->)%fmap_Some. simpl. intros Hq.
      destruct (Hold _ _ Hp0) as (i' & q' & [[-> _]|[_ ?]] & Hi' & -> & _);
        [|lia].
      simpl in Hq. simplify_eq.
      unfold quillAt. simpl. rewrite Hh2. fold (quillAt s1 q). rewrite Hid1.
      by eapply (wf_first s Hwf).
    + intros k q Hk. rewrite Hlen2. apply Hreg. by eexists.
    + intros i j p p'. rewrite Hp2, !list_lookup_imap.
      intros (p0 & Hp0 & ->)%fmap_Some (p0' & Hp0' & ->)%fmap_Some. simpl.
      intros Hm.
      destruct (Hold _ _ Hp0) as (i1 & q1 & Hi1 & Hl1 & _).
      destruct (Hold _ _ Hp0') as (i2 & q2 & Hi2 & Hl2 & _).
      assert (i1 = i2) by by eapply (wf_mounted_inj s Hwf). lia.
  - rewrite Hp2, fmap_imap, Hp1, <- list_fmap_delete.
    by rewrite <- (imap_const mounted).
Qed.

(** *** Deleting an empty page *)

(** In a well-formed state an empty page that is registered under a number
    other than 1 is deleted: its element and its registry entry go, the
    editor of the page before becomes the active one and a focus at its end
    is scheduled, and the remaining pages are renumbered. *)
Lemma deleteEmptyPage_wf s k e :
  wf s → k ≠ 1 → editors s !! k = Some e →
  isPageEmpty (quillAt s e) = true →
  ∃ prev s', deleteEmptyPage k s = Some (true, s') ∧ wf s' ∧
    editors s !! (k - 1) = Some prev ∧
    mounted <$> pages s' = delete (k - 1) (mounted <$> pages s) ∧
    currentPage s' = length (pages s) - 1 ∧
    length (pages s') = length (pages s) - 1 ∧
    heap s' = heap s ∧ cursor s' = cursor s ∧
    timers s' = timers s ++ [FocusActiveEnd (k - 1)] ∧
    activeEditor s' = Some prev.
Proof.
  intros Hwf Hk He Hempty.
  pose proof (wf_editors s Hwf k e He) as Hrange.
  destruct (proj2 (wf_registry s (k - 1) Hwf)) as [prev Hprev]; [lia|].
  exists prev. unfold deleteEmptyPage.
  rewrite decide_False by done. rewrite He.
  rewrite (wf_getPageById s k Hwf Hrange), Hempty. cbn.
  rewrite lookup_delete_ne by lia. rewrite Hprev.
  match goal with
  | |- context [renumberPages ?x] => set (s1 := x)
  end.
  destruct (remove_page_wf s s1 k Hwf) as (s3 & -> & Hwf3 & Hm & Hc & Hl & Hh & Ht & Hcu & Ha);
    [lia|done..|].
  exists s3. cbn. split_and!; try done.
Qed.

Lemma deleteEmptyPage_keeps_wf s k b s' :
  wf s → deleteEmptyPage k s = Some (b, s') → wf s'.
Proof.
  intros Hwf Hdel.
  destruct (decide (k = 1)) as [->|Hk].
  { rewrite deleteEmptyPage_one in Hdel. by simplify_eq. }
  destruct (editors s !! k) as [e|] eqn:He.
  - destruct (isPageEmpty (quillAt s e)) eqn:Hempty.
    + destruct (deleteEmptyPage_wf s k e Hwf Hk He Hempty)
        as (prev & s1 & Hs1 & Hwf1 & _).
      rewrite Hs1 in Hdel. by simplify_eq.
    + unfold deleteEmptyPage in Hdel. rewrite decide_False in Hdel by done.
      rewrite He in Hdel. destruct (getPageById s k); [|by simplify_eq].
      rewrite Hempty in Hdel. by simplify_eq.
  - rewrite deleteEmptyPage_unregistered in Hdel by done. by simplify_eq.
Qed.

(** *** The split and the overflow check *)

Lemma while_loop_inv {S : Type} (P : S → Prop) cond body :
  (∀ st st', P st → body st = Some st' → P st') →
  ∀ fuel st st', P st → while_loop cond body fuel st = Some st' → P st'.
Proof.
  intros Hbody. induction fuel as [|fuel IH]; intros st st' HP; simpl.
  - destruct (cond st); [done|]. by intros [= <-].
  - destruct (cond st); [|by intros [= <-]].
    destruct (body st) as [st1|] eqn:Hb; [|done]. simpl.
    apply IH. by eapply Hbody.
Qed.

Section Overflow.

Variable scrollHeight : list Op → Z.

Lemma moveOverflowContent_same_shape quill cid s s' :
  moveOverflowContent scrollHeight quill cid s = Some s' → same_shape s s'.
Proof.
  unfold moveOverflowContent.
  destruct (editors s !! currentPage s) as [nextEditor|];
    [|intros [= <-]; apply same_shape_refl].
  destruct (1 <? length (contents (quillAt s quill)));
    [|intros [= <-]; apply same_shape_refl].
  destruct (getEditorElement s cid) as [el|]; [|done]. simpl.
  match goal with
  | |- context [while_loop ?c ?b ?f ?v] =>
      destruct (while_loop c b f v) as [v'|] eqn:Hloop; [|done]
  end.
  simpl. intros Hfin.
  assert (same_shape s (state v')) as Hv'.
  { eapply (while_loop_inv (λ v, same_shape s (state v))) in Hloop;
      [done| |apply same_shape_refl].
    intros st st' Hst. unfold split_body.
    destruct (last (ops st)); [|done]. simpl.
    destruct (setContents quill (removelast (ops st)) (state st))
      as [s1|] eqn:Hset; [|done].
    simpl. intros [= <-]. simpl.
    eapply same_shape_trans; [done|]. by eapply setContents_same_shape. }
  destruct (0 <? length (moveOps v')).
  - eapply same_shape_trans; [done|]. by eapply setContents_same_shape.
  - by simplify_eq.
Qed.

Lemma checkPageOverflow_keeps_wf quill cid s s' :
  wf s → checkPageOverflow scrollHeight quill cid s = Some s' → wf s'.
Proof.
  intros Hwf. unfold checkPageOverflow.
  destruct (getEditorElement s cid) as [el|]; [|by intros [= <-]].
  destruct (exceeds_page (elementHeight scrollHeight s el));
    [|by intros [= <-]].
  destruct (createNewPage s) as [s1|] eqn:Hs1; [|done]. simpl.
  intros Hmove%moveOverflowContent_same_shape.
  eapply wf_same_shape; [done|]. by eapply createNewPage_keeps_wf.
Qed.

Lemma wf_updateStats s : wf s → wf (updateStats s).
Proof. apply wf_same_shape. by repeat split. Qed.

Lemma text_change_keeps_wf source quill s s' :
  wf s → text_change scrollHeight source quill s = Some s' → wf s'.
Proof.
  intros Hwf. unfold text_change, on_text_change.
  destruct source; try (intros [= <-]; by apply wf_updateStats).
  destruct (checkPageOverflow _ _ _ _) as [s1|] eqn:Hs1; [|done].
  simpl. intros [= <-].
  apply checkPageOverflow_keeps_wf in Hs1; [|by apply wf_updateStats].
  revert Hs1. apply wf_same_shape. by repeat split.
Qed.

End Overflow.

(** *** The remaining handlers *)

Lemma wf_focusAt quill index s : wf s → wf (focusAt quill index s).
Proof. apply wf_same_shape. by repeat split. Qed.

Lemma wf_setTimeout t s : wf s → wf (setTimeout t s).
Proof. apply wf_same_shape. by repeat split. Qed.

Lemma wf_set_timers ts s : wf s → wf (set_timers ts s).
Proof. apply wf_same_shape. by repeat split. Qed.

Lemma handleEnterAtBeginning_keeps_wf quill cid s b s' :
  wf s → handleEnterAtBeginning quill cid s = Some (b, s') → wf s'.
Proof.
  intros Hwf. unfold handleEnterAtBeginning.
  destruct (getSelection s quill) as [[|?]|]; try by intros [= _ <-].
  intros Hrun.
  apply bind_Some in Hrun as (s1 & Hs1 & Hrun).
  apply bind_Some in Hrun as (nextEditor & Hnext & Hrun).
  apply bind_Some in Hrun as (s2 & Hs2 & Hrun).
  apply bind_Some in Hrun as (s3 & Hs3 & Hrun).
  injection Hrun as _ <-.
  apply wf_setTimeout.
  apply setContents_same_shape in Hs2, Hs3.
  eapply wf_same_shape; [done|]. eapply wf_same_shape; [done|].
  destruct (editors s !! (currentPage s + 1)).
  - by simplify_eq.
  - by eapply createNewPage_keeps_wf.
Qed.

Lemma moveContentToPreviousPage_keeps_wf quill cid s b s' :
  wf s → moveContentToPreviousPage quill cid s = Some (b, s') → wf s'.
Proof.
  intros Hwf. unfold moveContentToPreviousPage.
  destruct (rankOf s quill) as [rank|] eqn:Hrank; [|by intros [= _ <-]].
  case_decide; [by intros [= _ <-]|].
  destruct (editors s !! (rank - 1)) as [prev|] eqn:Hprev;
    [|by intros [= _ <-]].
  intros Hrun.
  apply bind_Some in Hrun as (s1 & Hs1 & Hrun).
  apply bind_Some in Hrun as (s2 & Hs2 & Hrun).
  apply bind_Some in Hrun as (s3 & Hs3 & Hrun).
  injection Hrun as _ <-. apply wf_setTimeout.
  apply setContents_same_shape in Hs1, Hs2.
  pose proof (same_shape_trans _ _ _ Hs1 Hs2) as (Hp & He & Hc & Hh & Hid).
  apply rankOf_Some in Hrank as (p & Hr & Hp' & _).
  apply lookup_lt_Some in Hp'.
  match type of Hs3 with
  | updatePageCount (renumberPages ?x) = _ => set (s0 := x) in *
  end.
  destruct (remove_page_wf s s0 rank Hwf) as (s3' & Hs3' & Hwf3 & _);
    [lia|by rewrite <- Hp|by rewrite <- He|done..|].
  rewrite Hs3' in Hs3. by simplify_eq.
Qed.

Lemma keydown_keeps_wf key quill s b s' :
  wf s → keydown key quill s = Some (b, s') → wf s'.
Proof.
  intros Hwf. unfold keydown.
  assert (Hdel : ∀ k r, (deleteEmptyPage k s
             ≫= λ '(_, s0), Some (true, s0)) = Some r → wf r.2).
  { intros k [b' r] ([d s1] & Hd & [= _ <-])%bind_Some.
    by eapply deleteEmptyPage_keeps_wf. }
  repeat case_match; try (intros [= _ <-]; done);
    try (intros Hr; by apply Hdel in Hr).
  intros ([d s1] & Hd & [= _ <-])%bind_Some.
  by eapply moveContentToPreviousPage_keeps_wf.
Qed.

Lemma enter_binding_keeps_wf quill s b s' :
  wf s → enter_binding quill s = Some (b, s') → wf s'.
Proof.
  intros Hwf. unfold enter_binding.
  destruct (getSelection s quill) as [[|?]|]; try by intros [= _ <-].
  intros ([d s1] & Hd & [= _ <-])%bind_Some.
  by eapply handleEnterAtBeginning_keeps_wf.
Qed.

Lemma run_task_keeps_wf t s s' : wf s → run_task t s = Some s' → wf s'.
Proof.
  intros Hwf. destruct t; simpl.
  - destruct (activeEditor s); [|done]. intros [= <-].
    eapply wf_same_shape; [|by apply (wf_focusAt l (getLength (quillAt s l) - 1))].
    by repeat split.
  - intros [= <-]. by apply wf_focusAt.
  - destruct (activeEditor s); intros [= <-]; [by apply wf_focusAt|done].
Qed.

Lemma wf_loaded_document : wf loaded_document.
Proof.
  split; simpl.
  - lia.
  - done.
  - intros [|i] p Hp; [|done]. injection Hp as <-. simpl.
    split_and!; try done. exists 0. split_and!; try done; vm_compute; lia.
  - intros p q [= <-] [= <-]. done.
  - intros k q [<- <-]%lookup_singleton_Some. lia.
  - intros [|i] [|j] p p'; simpl; try done.
Qed.

Section Reachable.

Variable scrollHeight : list Op → Z.

Lemma user_edit_keeps_wf quill newOps s s' :
  wf s → user_edit scrollHeight quill newOps s = Some s' → wf s'.
Proof.
  intros Hwf Hrun.
  refine (text_change_keeps_wf scrollHeight User quill _ s' _ Hrun).
  revert Hwf. apply wf_same_shape.
  repeat split; simpl; [by rewrite length_alter|].
  intros q. apply containerId_alter.
Qed.

(** The widget's own binding answers the key, and the binding that
    [createQuillEditor] added is not asked. *)
Lemma keyboard_enter_widget quill newOps index s i :
  getSelection s quill = Some i →
  keyboard_enter scrollHeight quill newOps index s
  = s' ← user_edit scrollHeight quill newOps s;
    Some (true, set_cursor (Some (quill, index)) s').
Proof.
  intros Hsel. unfold keyboard_enter. rewrite Hsel.
  cbn [some_binding]. unfold widget_enter.
  by destruct (user_edit scrollHeight quill newOps s).
Qed.

Lemma keyboard_enter_keeps_wf quill newOps index s b s' :
  wf s → keyboard_enter scrollHeight quill newOps index s = Some (b, s') →
  wf s'.
Proof.
  intros Hwf. destruct (getSelection s quill) as [i|] eqn:Hsel.
  - rewrite (keyboard_enter_widget _ _ _ _ i Hsel).
    intros (s1 & Hs1 & [= _ <-])%bind_Some.
    apply (wf_same_shape s1); [by repeat split|].
    by eapply user_edit_keeps_wf.
  - unfold keyboard_enter. rewrite Hsel. by intros [= _ <-].
Qed.

Lemma handle_keeps_wf e s s' :
  wf s → handle scrollHeight e s = Some s' → wf s'.
Proof.
  intros Hwf.
  destruct e as [quill newOps|quill index|key quill|quill newOps index|i];
    simpl.
  - destruct (on_page s quill); [|done]. by apply user_edit_keeps_wf.
  - destruct (on_page s quill); [|done]. intros [= <-]. by apply wf_focusAt.
  - destruct (on_page s quill); [|done].
    intros ([b s1] & Hk & ->)%fmap_Some. by eapply keydown_keeps_wf.
  - destruct (on_page s quill); [|done].
    intros ([b s1] & Hk & ->)%fmap_Some. by eapply keyboard_enter_keeps_wf.
  - destruct (timers s !! i) as [t|]; [|done]. simpl.
    apply run_task_keeps_wf. by apply wf_set_timers.
Qed.

Lemma reachable_wf s : reachable scrollHeight s → wf s.
Proof.
  induction 1 as [s Hinit|s e s' _ IH Hstep].
  - rewrite loaded_document_is_loaded in Hinit. injection Hinit as <-.
    apply wf_loaded_document.
  - by eapply handle_keeps_wf.
Qed.

End Reachable.

(** ** Rank density *)

Lemma wf_dense s : wf s → dense_ranks s.
Proof.
  intros Hwf. split; [by apply wf_nonempty|]. split.
  - unfold page_ranks. apply list_eq. intros i. rewrite list_lookup_fmap.
    destruct (pages s !! i) as [p|] eqn:Hp; simpl.
    + destruct (wf_page_lookup s _ p Hwf Hp) as (q & -> & _).
      apply lookup_lt_Some in Hp. by rewrite lookup_seq_lt.
    + apply lookup_ge_None in Hp. symmetry. apply lookup_ge_None.
      by rewrite length_seq.
  - apply keys_dense. intros k. by apply wf_registry.
Qed.

(** C2: in every state the editor can reach, and after a page creation, an
    empty-page deletion (with its renumbering) or an overflow check run from
    such a state, the ids of the pages in document order and the keys of the
    registry are both exactly [1..N], with [N] at least 1, so that page 1 is
    there. *)
Theorem ranks_stay_dense (scrollHeight : list Op → Z) (s : State) :
  reachable scrollHeight s →
  dense_ranks s ∧ is_Some (editors s !! 1) ∧
  (∃ s', createNewPage s = Some s' ∧ dense_ranks s') ∧
  (∀ pageNum deleted s',
     deleteEmptyPage pageNum s = Some (deleted, s') → dense_ranks s') ∧
  (∀ quill containerId s',
     checkPageOverflow scrollHeight quill containerId s = Some s' →
     dense_ranks s').
Proof.
  intros Hwf%reachable_wf. split_and!.
  - by apply wf_dense.
  - apply wf_registry; [done|]. pose proof (wf_nonempty s Hwf). lia.
  - destruct (createNewPage_wf s Hwf) as (s' & Hs' & _).
    exists s'. split; [done|]. apply wf_dense.
    by eapply createNewPage_keeps_wf.
  - intros pageNum deleted s' Hdel. apply wf_dense.
    by eapply deleteEmptyPage_keeps_wf.
  - intros quill cid s' Hchk. apply wf_dense.
    by eapply checkPageOverflow_keeps_wf.
Qed.

Lemma stale_document_reached :
  run by_length stale_events loaded_document = Some stale_document.
Proof. by vm_compute. Qed.

Lemma run_reachable scrollHeight es s s' :
  reachable scrollHeight s → run scrollHeight es s = Some s' →
  reachable scrollHeight s'.
Proof.
  unfold run. revert s. induction es as [|e es IH]; intros s Hs; simpl.
  - by intros [= <-].
  - destruct (handle scrollHeight e s) as [s1|] eqn:Hs1.
    + apply IH. by eapply reach_step.
    + clear. intros H. exfalso. induction es; simpl in H; [done|auto].
Qed.

Lemma stale_document_reachable : reachable by_length stale_document.
Proof.
  eapply run_reachable; [|apply stale_document_reached].
  apply reach_init, loaded_document_is_loaded.
Qed.

Lemma ranks_stay_dense_witness :
  reachable by_length stale_document ∧ dense_ranks stale_document.
Proof.
  split; [apply stale_document_reachable|].
  apply (ranks_stay_dense by_length stale_document).
  apply stale_document_reachable.
Defined.

(** ** Page 1 stays *)

Lemma wf_first_containerId s quill :
  wf s → rankOf s quill = Some 1 → containerId (quillAt s quill) = 1.
Proof.
  intros Hwf (p & _ & Hp & Hq)%rankOf_Some. by eapply (wf_first s Hwf).
Qed.

Lemma keydown_page_one key quill s :
  containerId (quillAt s quill) = 1 → keydown key quill s = Some (false, s).
Proof.
  intros Hid. unfold keydown. rewrite Hid. simpl.
  by rewrite !andb_false_r.
Qed.

(** C5: [deleteEmptyPage(1)] refuses, in every state, and hands the state
    back as it was; and on the page of rank 1 neither Backspace nor Delete
    (nor any other key) starts a deletion or a merge: the listener does not
    prevent the default and leaves the state as it was. *)
Theorem page_one_is_never_deleted (s : State) :
  deleteEmptyPage 1 s = Some (false, s) ∧
  ∀ quill key,
    wf s → rankOf s quill = Some 1 →
    keydown key quill s = Some (false, s).
Proof.
  split; [apply deleteEmptyPage_one|].
  intros quill key Hwf Hrank. apply keydown_page_one.
  by apply wf_first_containerId.
Qed.

Lemma wf_two_pages : wf two_pages.
Proof.
  split; simpl.
  - lia.
  - done.
  - intros [|[|i]] p Hp; [| |done]; injection Hp as <-; simpl;
      (split_and!; try done); eexists; (split_and!; try done);
      vm_compute; lia.
  - intros p q [= <-] [= <-]. done.
  - intros k q [[<- <-]|[_ [<- <-]%lookup_singleton_Some]]%lookup_insert_Some;
      lia.
  - intros [|[|i]] [|[|j]] p p'; simpl; try done;
      intros [= <-] [= <-]; done.
Qed.

Lemma page_one_is_never_deleted_witness :
  wf two_pages ∧ rankOf two_pages 0 = Some 1 ∧
  keydown Backspace 0 two_pages = Some (false, two_pages).
Proof.
  split; [apply wf_two_pages|]. split; [done|].
  apply (page_one_is_never_deleted two_pages); [apply wf_two_pages|done].
Defined.

Lemma deleteEmptyPage_keeps_nonempty_page_witness :
  1 < 2 ∧ editors abc_document !! 2 = Some 1 ∧
  isPageEmpty (quillAt abc_document 1) = false ∧
  deleteEmptyPage 2 abc_document = Some (false, abc_document).
Proof.
  split; [lia|]. split; [done|]. split; [done|].
  apply (deleteEmptyPage_keeps_nonempty_page abc_document 2 1); [lia|done..].
Defined.

Lemma split_loop_terminates_keeping_a_unit_witness :
  0 < length (heap two_pages) ∧
  contents (quillAt two_pages 0) = normalise (contents (quillAt two_pages 0)) ∧
  3 ≤ 3 ∧
  ∃ v' popped,
    while_loop split_cond (split_body never_fits 0 0) 2
      (mkSplit (contents (quillAt two_pages 0)) [] 5000 two_pages) = Some v' ∧
    split_cond v' = false ∧
    ops v' ++ popped = contents (quillAt two_pages 0) ∧
    1 ≤ length (ops v').
Proof.
  split; [simpl; lia|]. split; [reflexivity|]. split; [lia|].
  destruct (split_loop_terminates_keeping_a_unit never_fits 0 0 2
              (mkSplit (contents (quillAt two_pages 0)) [] 5000 two_pages))
    as (v' & popped & Hrun & Hend & Hpre & _ & [Hnil|Hone] & _).
  - simpl. lia.
  - reflexivity.
  - simpl. lia.
  - discriminate Hnil.
  - exists v', popped. done.
Defined.

(** ** Backspace at the start of a page *)

Lemma wf_rank_facts s quill rank :
  wf s → rankOf s quill = Some rank →
  1 ≤ rank ≤ length (pages s) ∧
  pages s !! (rank - 1) = Some (mkPage rank rank rank (Some quill)) ∧
  editors s !! rank = Some quill ∧ quill < length (heap s) ∧
  rank ≤ containerId (quillAt s quill).
Proof.
  intros Hwf (p & Hr & Hp & Hq)%rankOf_Some.
  destruct (wf_page_lookup s _ p Hwf Hp) as (q & -> & He & Hlt & Hid).
  simpl in Hq. injection Hq as ->. rewrite <- Hr in *.
  apply lookup_lt_Some in Hp as Hlen. split_and!; try done; lia.
Qed.





(** ** A page that overflows *)

Lemma head_omap_first {A B} (f : A → option B) (l : list A) i x y :
  l !! i = Some x → f x = Some y →
  (∀ j z, j < i → l !! j = Some z → f z = None) →
  head (omap f l) = Some y.
Proof.
  revert i. induction l as [|a l IH]; intros i Hi Hx Hbefore; [done|].
  destruct i as [|i]; simpl in *.
  - injection Hi as ->. by rewrite Hx.
  - rewrite (Hbefore 0 a) by (done || lia).
    apply (IH i); [done..|]. intros j z Hj Hz. apply (Hbefore (S j)); [lia|done].
Qed.

(** The container of an editor that still carries the number of its rank is
    found under that number, also after pages were added at the end. *)
Lemma wf_getEditorElement s s1 extra quill rank :
  wf s → rankOf s quill = Some rank → pages s1 = pages s ++ extra →
  getEditorElement s1 rank = Some quill.
Proof.
  intros Hwf Hrank Hp1.
  destruct (wf_rank_facts s quill rank Hwf Hrank) as (Hrange & Hp & _).
  unfold getEditorElement. rewrite Hp1.
  eapply (head_omap_first _ _ (rank - 1)).
  - rewrite lookup_app_l by lia. done.
  - simpl. by rewrite decide_True.
  - intros j z Hj Hz. rewrite lookup_app_l in Hz by lia.
    destruct (wf_page_lookup s _ z Hwf Hz) as (q & -> & _). simpl.
    rewrite decide_False by lia. done.
Qed.

Section Overflowing.

Variable scrollHeight : list Op → Z.

(** [moveOverflowContent] right after [createNewPage]: the units popped
    from the end of the page go to the new last page. *)
Lemma moveOverflowContent_after_create s s1 quill rank :
  wf s → rankOf s quill = Some rank →
  createNewPage s = Some s1 →
  ∃ s' kept moved,
    moveOverflowContent scrollHeight quill rank s1 = Some s' ∧
    same_shape s1 s' ∧
    kept ++ moved = contents (quillAt s quill) ∧
    (contents (quillAt s quill) = [] ∨ 1 ≤ length kept) ∧
    (exceeds_page (scrollHeight (contents (quillAt s quill))) = true →
     2 ≤ length (contents (quillAt s quill)) → moved ≠ []) ∧
    (moved ≠ [] →
     contents (quillAt s' quill) = normalise kept ∧
     contents (quillAt s' (length (heap s))) = normalise moved ∧
     (2 ≤ length kept →
      exceeds_page (scrollHeight (normalise kept)) = false)) ∧
    (∀ extra rest, extra ≠ [] → rest ≠ [] →
       kept ++ extra ++ rest = contents (quillAt s quill) →
       exceeds_page (scrollHeight (normalise (kept ++ extra))) = true) ∧
    (moved = [] →
     contents (quillAt s' quill) = contents (quillAt s quill) ∧
     contents (quillAt s' (length (heap s))) = [plain newline]) ∧
    (∀ other, other ≠ quill → other < length (heap s) →
       quillAt s' other = quillAt s other).
Proof.
  intros Hwf Hrank Hcreate.
  destruct (createNewPage_wf s Hwf)
    as (s1' & Hs1 & Hp1 & He1 & Hh1 & Hc1 & Hcu1 & Ht1 & _).
  rewrite Hs1 in Hcreate. injection Hcreate as ->.
  destruct (wf_rank_facts s quill rank Hwf Hrank) as (_ & _ & _ & Hlt & _).
  set (new := length (heap s)) in *.
  assert (Hold : ∀ q, q < new → quillAt s1 q = quillAt s q).
  { intros q Hq. unfold quillAt. rewrite Hh1.
    by rewrite lookup_total_app_l. }
  assert (Hnew : contents (quillAt s1 new) = [plain newline]).
  { unfold quillAt. rewrite Hh1. rewrite lookup_total_app_r by done.
    unfold new. by rewrite Nat.sub_diag. }
  assert (Hlen1 : length (heap s1) = S new).
  { rewrite Hh1, length_app. simpl. unfold new. lia. }
  pose proof (moveOverflowContent_same_shape scrollHeight quill rank s1)
    as Hshape.
  unfold moveOverflowContent in *.
  rewrite Hc1, He1, lookup_insert_eq in *.
  rewrite (Hold quill Hlt) in *.
  set (content0 := contents (quillAt s quill)) in *.
  destruct (1 <? length content0) eqn:Hmany.
  - rewrite (wf_getEditorElement s s1 _ quill rank Hwf Hrank Hp1) in *.
    cbn [mbind option_bind] in *.
    destruct (split_loop_run scrollHeight quill quill (length content0)
                (mkSplit content0 [] (elementHeight scrollHeight s1 quill) s1))
      as (v' & popped & Hrun & Hend & Hpre & Hmv & Hone & Hfirst & Hsame
          & Hcont & Hmid & _ & _ & _ & Hh' & Hoth); simpl.
    { lia. }
    { lia. }
    rewrite Hrun in *. cbn [mbind option_bind] in *.
    simpl in Hpre, Hmv, Hone, Hoth, Hh', Hmid. rewrite app_nil_r in Hmv.
    rewrite Hmv in *. specialize (Hmid eq_refl).
    assert (Hpop : exceeds_page (scrollHeight content0) = true →
                   popped ≠ []).
    { intros Hover. apply Hfirst. unfold split_cond. simpl.
      unfold elementHeight. rewrite (Hold quill Hlt). fold content0.
      by rewrite Hover, Hmany. }
    destruct popped as [|o popped]; simpl in *.
    + specialize (Hsame eq_refl). subst v'. simpl in *.
      exists s1, content0, []. split_and!; try done.
      * intros Hover _. by apply Hpop.
      * intros _. by rewrite (Hold quill Hlt).
      * intros other Hne Hother. by apply Hold.
    + destruct (Hcont ltac:(done)) as [Hkept Hheight].
      destruct (setContents new (o :: popped) (state v')) as [s'|] eqn:Hset;
        [|by rewrite setContents_eq in Hset].
      exists s', (ops v'), (o :: popped).
      apply setContents_Some in Hset
        as (_ & _ & _ & _ & _ & _ & _ & _ & Hoth' & Hcont').
      split_and!; try done.
      * by apply Hshape.
      * intros _. split_and!.
        -- rewrite Hoth' by lia. done.
        -- apply Hcont'. lia.
        -- intros Htwo. unfold split_cond in Hend.
           rewrite Hheight in Hend. unfold elementHeight in Hend.
           rewrite Hkept in Hend.
           apply andb_false_iff in Hend as [Hend|Hend%Nat.ltb_ge];
             [done|lia].
      * intros other Hne Hother. rewrite Hoth' by lia.
        rewrite Hoth by done. by apply Hold.
  - apply Nat.ltb_ge in Hmany.
    exists s1, content0, []. rewrite app_nil_r.
    split_and!; try done.
    + destruct content0; [by left|right; simpl; lia].
    + intros _ Htwo. lia.
    + intros extra rest Hextra _ Heq. apply (f_equal length) in Heq.
      rewrite !length_app in Heq. destruct extra; [done|]. simpl in Heq. lia.
    + intros _. by rewrite (Hold quill Hlt).
    + intros other _ Hother. by apply Hold.
Qed.

End Overflowing.

Section OverflowEvent.

Variable scrollHeight : list Op → Z.

(** The overflow check on a page that exceeds the capacity, step by
    step. *)
Lemma checkPageOverflow_split
    (s : State) (quill : loc) (rank : nat) :
  wf s → rankOf s quill = Some rank →
  exceeds_page (scrollHeight (contents (quillAt s quill))) = true →
  ∃ s' kept moved,
    checkPageOverflow scrollHeight quill rank s = Some s' ∧
    wf s' ∧
    pages s' = pages s ++
      [mkPage (S (length (pages s))) (S (length (pages s)))
         (S (length (pages s))) (Some (length (heap s)))] ∧
    editors s' = <[S (length (pages s)) := length (heap s)]> (editors s) ∧
    kept ++ moved = contents (quillAt s quill) ∧
    (contents (quillAt s quill) = [] ∨ 1 ≤ length kept) ∧
    (2 ≤ length (contents (quillAt s quill)) → moved ≠ []) ∧
    (moved ≠ [] →
     contents (quillAt s' quill) = normalise kept ∧
     contents (quillAt s' (length (heap s))) = normalise moved ∧
     (2 ≤ length kept →
      exceeds_page (scrollHeight (normalise kept)) = false)) ∧
    (∀ extra rest, extra ≠ [] → rest ≠ [] →
       kept ++ extra ++ rest = contents (quillAt s quill) →
       exceeds_page (scrollHeight (normalise (kept ++ extra))) = true) ∧
    (moved = [] →
     contents (quillAt s' quill) = contents (quillAt s quill) ∧
     contents (quillAt s' (length (heap s))) = [plain newline]) ∧
    (∀ other, other ≠ quill → other < length (heap s) →
       quillAt s' other = quillAt s other).
Proof.
  intros Hwf Hrank Hover.
  unfold checkPageOverflow.
  rewrite (wf_getEditorElement s s [] quill rank)
    by (done || by rewrite app_nil_r).
  unfold elementHeight. rewrite Hover.
  destruct (createNewPage_wf s Hwf) as (s1 & Hs1 & Hp1 & He1 & Hh1 & _).
  rewrite Hs1. cbn [mbind option_bind].
  destruct (moveOverflowContent_after_create scrollHeight s
              s1 quill rank Hwf Hrank Hs1)
    as (s' & kept & moved & -> & Hshape & Hkm & Hone & Hpop & Hmoved
        & Hmid & Hnone & Hoth).
  exists s', kept, moved.
  pose proof Hshape as (Hp' & He' & _).
  split_and!; try done.
  - apply (wf_same_shape s1 s' Hshape). by eapply createNewPage_keeps_wf.
  - by rewrite Hp', Hp1.
  - by rewrite He', He1.
  - by apply Hpop.
Qed.

(** C6, as the code has it: on a change made by the user to a page whose
    editor container still carries the number of its rank and whose
    rendered extent exceeds the capacity, a new page is created at the end
    of the document, whether or not the page is the last one.  Units are
    then popped from the end of the page, at least one when the page holds
    two or more, until the page no longer exceeds the capacity or one unit
    is left, and no further; the units popped become the content of the new
    last page, and the page keeps the rest, both in the form the widget
    gives them.  A page of a single unit gives nothing to the new page,
    which stays blank.  No other page is touched. *)
Theorem overflow_appends_a_page_at_the_end
    (s : State) (quill : loc) (rank : nat) :
  wf s → rankOf s quill = Some rank →
  containerId (quillAt s quill) = rank →
  exceeds_page (scrollHeight (contents (quillAt s quill))) = true →
  ∃ s' kept moved,
    text_change scrollHeight User quill s = Some s' ∧
    pages s' = pages s ++
      [mkPage (S (length (pages s))) (S (length (pages s)))
         (S (length (pages s))) (Some (length (heap s)))] ∧
    editors s' = <[S (length (pages s)) := length (heap s)]> (editors s) ∧
    dense_ranks s' ∧
    kept ++ moved = contents (quillAt s quill) ∧
    (contents (quillAt s quill) = [] ∨ 1 ≤ length kept) ∧
    (2 ≤ length (contents (quillAt s quill)) → moved ≠ []) ∧
    (moved ≠ [] →
     contents (quillAt s' quill) = normalise kept ∧
     contents (quillAt s' (length (heap s))) = normalise moved ∧
     (2 ≤ length kept →
      exceeds_page (scrollHeight (normalise kept)) = false)) ∧
    (∀ extra rest, extra ≠ [] → rest ≠ [] →
       kept ++ extra ++ rest = contents (quillAt s quill) →
       exceeds_page (scrollHeight (normalise (kept ++ extra))) = true) ∧
    (moved = [] →
     contents (quillAt s' quill) = contents (quillAt s quill) ∧
     contents (quillAt s' (length (heap s))) = [plain newline]) ∧
    (∀ other, other ≠ quill → other < length (heap s) →
       quillAt s' other = quillAt s other).
Proof.
  intros Hwf Hrank Hid Hover.
  unfold text_change, on_text_change.
  change (quillAt (updateStats s) quill) with (quillAt s quill).
  rewrite Hid.
  destruct (checkPageOverflow_split (updateStats s) quill rank)
    as (s' & kept & moved & -> & Hwf' & Hp & He & Hkm & Hone & Hpop & Hmoved
        & Hmid & Hnone & Hoth); [by apply wf_updateStats|done..|].
  cbn [mbind option_bind].
  exists (set_lastSaved "Unsaved changes" s'), kept, moved.
  split_and!; try done.
  apply wf_dense. revert Hwf'. apply wf_same_shape. by repeat split.
Qed.

End OverflowEvent.

(** C6 as stated fails: page 1 of [two_pages] overflows and is not the last
    page, yet a third page is created, and the overflow goes there, not to
    page 2. *)
Lemma overflow_of_inner_page_creates_page :
  ¬ (∀ s', text_change tall_units User 0 two_pages = Some s' →
           length (pages s') = length (pages two_pages) ∧
           contents (quillAt s' 1) ≠ contents (quillAt two_pages 1)).
Proof.
  intros Hclaim.
  destruct (text_change tall_units User 0 two_pages) as [s'|] eqn:Hs';
    [|by vm_compute in Hs'].
  destruct (Hclaim s' eq_refl) as [Hlen _].
  vm_compute in Hs'. injection Hs' as <-. by vm_compute in Hlen.
Qed.

Example overflow_of_inner_page_result :
  (λ s', (page_ranks s', contents (quillAt s' 0), contents (quillAt s' 1),
          contents (quillAt s' 2)))
    <$> text_change tall_units User 0 two_pages
  = Some ([1; 2; 3],
          [styled "bold" "x"; plain newline],
          [plain ("w" +:+ newline)],
          [styled "italic" "y"; plain ("z" +:+ newline)]).
Proof. by vm_compute. Qed.

Lemma overflow_appends_a_page_at_the_end_witness :
  wf two_pages ∧ rankOf two_pages 0 = Some 1 ∧
  containerId (quillAt two_pages 0) = 1 ∧
  exceeds_page (tall_units (contents (quillAt two_pages 0))) = true ∧
  ∃ s' kept moved,
    text_change tall_units User 0 two_pages = Some s' ∧
    length (pages s') = 3 ∧
    kept ++ moved = contents (quillAt two_pages 0) ∧
    moved ≠ [] ∧
    contents (quillAt s' 0) = normalise kept ∧
    contents (quillAt s' 2) = normalise moved ∧
    quillAt s' 1 = quillAt two_pages 1.
Proof.
  split; [apply wf_two_pages|]. do 3 (split; [done|]).
  destruct (overflow_appends_a_page_at_the_end tall_units two_pages 0 1)
    as (s' & kept & moved & Hs' & Hp & _ & _ & Hkm & _ & Hpop & Hmoved & _
        & _ & Hoth); [apply wf_two_pages|done..|].
  exists s', kept, moved.
  assert (Hne : moved ≠ []) by (apply Hpop; simpl; lia).
  destruct (Hmoved Hne) as (Hkept & Hnew & _).
  split_and!; try done.
  - by rewrite Hp.
  - apply Hoth; [done|simpl; lia].
Defined.

(** ** Enter at the start of the document *)




Example enter_at_document_start_result :
  (λ s2, (page_ranks s2, contents (quillAt s2 0), contents (quillAt s2 1),
          cursor s2))
    <$> (enter_binding 0 hello_document ≫= λ r, run_timers r.2)
  = Some ([1; 2], [plain newline], [plain ("Hello" +:+ newline)],
          Some (1, 0)).
Proof. by vm_compute. Qed.

(** Enter at the start of "Hello": the widget puts in a line terminator,
    the cursor is behind it, and the page is still the only one. *)
Example enter_key_at_document_start_result :
  (λ r, (r.1, page_ranks r.2, contents (quillAt r.2 0), cursor r.2))
    <$> keyboard_enter always_fits 0
          [plain (newline +:+ "Hello" +:+ newline)] 1 hello_document
  = Some (true, [1], [plain (newline +:+ "Hello" +:+ newline)], Some (0, 1)).
Proof. by vm_compute. Qed.



(** ** Backspace and Delete on an empty page *)

(** X7: while the editor of a page still carries the number of the page's rank,
    Backspace and Delete on the empty page delete it, whatever the cursor
    offset, so also at offset 0, where a merge could apply: the default is
    prevented, the page goes, the rest is renumbered, and the focus that is
    scheduled puts the cursor at the end of the page before. *)
Lemma empty_page_deleted_while_number_is_current
    (s : State) (quill : loc) (rank : nat) (key : Key) :
  wf s → rankOf s quill = Some rank → 1 < rank →
  containerId (quillAt s quill) = rank →
  isPageEmpty (quillAt s quill) = true →
  key = Backspace ∨ key = Delete →
  ∃ prev s',
    editors s !! (rank - 1) = Some prev ∧
    keydown key quill s = Some (true, s') ∧
    mounted <$> pages s' = delete (rank - 1) (mounted <$> pages s) ∧
    dense_ranks s' ∧
    heap s' = heap s ∧
    timers s' = timers s ++ [FocusActiveEnd (rank - 1)] ∧
    cursor <$> run_task (FocusActiveEnd (rank - 1)) s'
      = Some (Some (prev, getLength (quillAt s prev) - 1)).
Proof.
  intros Hwf Hrank Hgt Hid Hempty Hkey.
  destruct (wf_rank_facts s quill rank Hwf Hrank) as (_ & _ & He & _).
  destruct (deleteEmptyPage_wf s rank quill Hwf)
    as (prev & s' & Hdel & Hwf' & Hprev & Hm & _ & _ & Hh & _ & Ht & Ha);
    [lia|done..|].
  exists prev, s'. split; [done|]. split.
  - unfold keydown. rewrite Hid, Hempty, Hdel.
    replace (1 <? rank) with true by (symmetry; apply Nat.ltb_lt; lia).
    by destruct Hkey as [-> | ->].
  - split_and!; try done; [by apply wf_dense|].
    simpl. rewrite Ha. simpl. unfold quillAt. by rewrite Hh.
Qed.

(** C4 fails on a page that was renumbered: in [stale_document], which the
    editor reaches from the blank document by [stale_events], the page of
    rank 2 is empty but its listener was created for ["editor-3"]; Backspace
    and Delete prevent the default and call [deleteEmptyPage(3)], which
    finds no such page, so nothing is deleted and the state stays as it
    was. *)
Theorem empty_renumbered_page_is_not_deleted :
  run by_length stale_events loaded_document = Some stale_document ∧
  rankOf stale_document 2 = Some 2 ∧
  isPageEmpty (quillAt stale_document 2) = true ∧
  containerId (quillAt stale_document 2) = 3 ∧
  keydown Backspace 2 stale_document = Some (true, stale_document) ∧
  keydown Delete 2 stale_document = Some (true, stale_document).
Proof. split_and!; by vm_compute. Qed.

(** Once a new page 3 exists, the same keystroke deletes that page instead
    of the empty page 2 it was pressed on. *)
Example empty_renumbered_page_deletes_another :
  (λ s, (mounted <$> pages s, rankOf s 2))
    <$> run by_length
          [UserEdit 0 [plain "Hello world!!"]; UserSelect 2 0;
           KeyDown Backspace 2]
          stale_document
  = Some ([Some 0; Some 2], Some 2) ∧
  (λ s, mounted <$> pages s)
    <$> run by_length [UserEdit 0 [plain "Hello world!!"]] stale_document
  = Some [Some 0; Some 2; Some 3].
Proof. split; by vm_compute. Qed.

(** ** The split as a whole *)

(** Called with an editor that exists and a container that is found, which
    is how [checkPageOverflow] calls it, [moveOverflowContent] returns, and
    a source page that had a unit has one afterwards. *)
Lemma moveOverflowContent_returns
    (scrollHeight : list Op → Z) (quill : loc) (cid : nat) (s : State)
    (editorElement : loc) :
  quill < length (heap s) →
  getEditorElement s cid = Some editorElement →
  ∃ s', moveOverflowContent scrollHeight quill cid s = Some s' ∧
        (contents (quillAt s quill) = [] ∨
         1 ≤ length (contents (quillAt s' quill))).
Proof.
  intros Hq Hel. unfold moveOverflowContent. rewrite Hel.
  set (content0 := contents (quillAt s quill)).
  assert (Hsame : content0 = [] ∨ 1 ≤ length content0).
  { destruct content0; [by left|right; simpl; lia]. }
  destruct (editors s !! currentPage s) as [nextEditor|]; [|by exists s].
  destruct (1 <? length content0) eqn:Hmany; [|by exists s].
  cbn [mbind option_bind].
  destruct (split_loop_run scrollHeight quill editorElement (length content0)
              (mkSplit content0 [] (elementHeight scrollHeight s editorElement)
                 s))
    as (v' & popped & -> & _ & Hpre & Hmv & Hone & _ & Hstay & Hcont & _ & _
        & _ & _ & Hh & Hoth); [done|simpl; lia|].
  cbn [mbind option_bind]. simpl in *. rewrite app_nil_r in Hmv.
  assert (Hkept : 1 ≤ length (contents (quillAt (state v') quill))).
  { destruct popped as [|o popped].
    - rewrite (Hstay eq_refl). simpl. fold content0.
      apply Nat.ltb_lt in Hmany. lia.
    - destruct (Hcont ltac:(done)) as [-> _].
      pose proof (normalise_ne (ops v')).
      destruct (normalise (ops v')); [done|simpl; lia]. }
  destruct (0 <? length (moveOps v')) eqn:Hmoved.
  - destruct (setContents nextEditor (moveOps v') (state v')) as [s'|] eqn:Hs';
      [|by rewrite setContents_eq in Hs'].
    exists s'. split; [done|]. right.
    apply setContents_Some in Hs' as (_ & _ & _ & _ & _ & _ & _ & _ & Hoth'
                                      & Hcont').
    destruct (decide (nextEditor = quill)) as [->|Hne].
    + rewrite Hcont' by lia.
      pose proof (normalise_ne (moveOps v')).
      destruct (normalise (moveOps v')); [done|simpl; lia].
    + by rewrite Hoth'.
  - exists (state v'). split; [done|]. by right.
Qed.

(** A page of two units that overflows by one is split in two pages; the
    widget puts a line terminator behind the unit that stays. *)
Example scenario_A_split :
  (λ s', (page_ranks s', contents (quillAt s' 0), contents (quillAt s' 1)))
    <$> text_change tall_units User 0 scenario_A
  = Some ([1; 2], [styled "bold" "Hello "; plain newline],
          [plain ("world" +:+ newline)]).
Proof. by vm_compute. Qed.

(** Of three pages of which the last two are empty the third is deleted;
    pages 1 and 2 stay. *)
Example scenario_C_delete :
  (λ r, (r.1, page_ranks r.2, registry_ranks r.2))
    <$> (run by_length
           [UserEdit 0 [plain "Hello world"]; UserEdit 0 [plain "Hello world!"]]
           loaded_document
         ≫= deleteEmptyPage 3)
  = Some (true, [1; 2], [1; 2]).
Proof. by vm_compute. Qed.

(** ** Documents stay in the widget's form *)

Lemma tidy_Forall s :
  tidy s ↔ Forall (λ q, canonical (contents q)) (heap s).
Proof.
  unfold tidy, quillAt. rewrite Forall_lookup. split.
  - intros H i q Hq. specialize (H i (lookup_lt_Some _ _ _ Hq)).
    by rewrite (list_lookup_total_correct _ _ _ Hq) in H.
  - intros H q Hq. destruct (lookup_lt_is_Some_2 _ _ Hq) as [Q HQ].
    rewrite (list_lookup_total_correct _ _ _ HQ). by eapply H.
Qed.

Lemma tidy_heap s s' : heap s' = heap s → tidy s → tidy s'.
Proof. rewrite !tidy_Forall. by intros ->. Qed.

Lemma tidy_store quill newOps s :
  tidy s →
  tidy (set_heap
          (alter (λ q, mkQuill (containerId q) (normalise newOps)) quill
             (heap s)) s).
Proof.
  rewrite !tidy_Forall. simpl. intros H.
  apply Forall_alter; [done|]. intros q _ _. apply normalise_canonical.
Qed.

Lemma tidy_setContents quill newOps s s' :
  tidy s → setContents quill newOps s = Some s' → tidy s'.
Proof.
  intros H. rewrite setContents_eq. intros [= <-].
  pose proof (tidy_store quill newOps s H) as Hstore.
  revert Hstore. by apply tidy_heap.
Qed.

Lemma updatePageCount_heap s s' :
  updatePageCount s = Some s' → heap s' = heap s.
Proof.
  unfold updatePageCount. destruct (keys (editors s)); [done|].
  by intros [= <-].
Qed.

Lemma renumberPages_heap s : heap (renumberPages s) = heap s.
Proof. by destruct (renumberPages_spec s) as (_ & _ & _ & -> & _). Qed.

Lemma createNewPage_heap s s' :
  createNewPage s = Some s' →
  heap s' = heap s ++ [mkQuill (S (currentPage s)) [plain newline]].
Proof.
  unfold createNewPage, createQuillEditor. simpl.
  destruct (getEditorContainer _ _); [|done]. simpl.
  by intros ->%updatePageCount_heap.
Qed.

Lemma tidy_createNewPage s s' : tidy s → createNewPage s = Some s' → tidy s'.
Proof.
  rewrite !tidy_Forall. intros H ->%createNewPage_heap.
  apply Forall_app. split; [done|]. by repeat constructor.
Qed.

Lemma deleteEmptyPage_heap k s b s' :
  deleteEmptyPage k s = Some (b, s') → heap s' = heap s.
Proof.
  unfold deleteEmptyPage. case_decide; [by intros [= _ <-]|].
  destruct (editors s !! k); [|by intros [= _ <-]].
  destruct (getPageById s k); [|by intros [= _ <-]].
  destruct (isPageEmpty _); [|by intros [= _ <-]].
  intros (s2 & Hs2 & [= _ <-])%bind_Some.
  rewrite (updatePageCount_heap _ _ Hs2), renumberPages_heap.
  by destruct (editors _ !! (k - 1)).
Qed.

Lemma tidy_moveContentToPreviousPage quill cid s b s' :
  tidy s → moveContentToPreviousPage quill cid s = Some (b, s') → tidy s'.
Proof.
  intros H. unfold moveContentToPreviousPage.
  destruct (rankOf s quill) as [rank|]; [|by intros [= _ <-]].
  case_decide; [by intros [= _ <-]|].
  destruct (editors s !! (rank - 1)) as [prev|]; [|by intros [= _ <-]].
  intros (s1 & Hs1 & (s2 & Hs2 & (s3 & Hs3 & [= _ <-])%bind_Some)%bind_Some)
    %bind_Some.
  apply (tidy_heap s2).
  - simpl. by rewrite (updatePageCount_heap _ _ Hs3), renumberPages_heap.
  - eapply tidy_setContents; [|done]. by eapply tidy_setContents.
Qed.

Lemma tidy_keydown key quill s b s' :
  tidy s → keydown key quill s = Some (b, s') → tidy s'.
Proof.
  intros H. unfold keydown.
  assert (Hdel : ∀ k r, (deleteEmptyPage k s
             ≫= λ '(_, s0), Some (true, s0)) = Some r → tidy r.2).
  { intros k [b' r] ([d s1] & Hd & [= _ <-])%bind_Some.
    apply (tidy_heap s); [|done]. by eapply deleteEmptyPage_heap. }
  repeat case_match; try (intros [= _ <-]; done);
    try (intros Hr; by apply Hdel in Hr).
  intros ([d s1] & Hd & [= _ <-])%bind_Some.
  by eapply tidy_moveContentToPreviousPage.
Qed.

Lemma tidy_handleEnterAtBeginning quill cid s b s' :
  tidy s → handleEnterAtBeginning quill cid s = Some (b, s') → tidy s'.
Proof.
  intros H. unfold handleEnterAtBeginning.
  destruct (getSelection s quill) as [[|?]|]; try by intros [= _ <-].
  intros (s1 & Hs1 & (nextEditor & _ & (s2 & Hs2 & (s3 & Hs3 & [= _ <-])
    %bind_Some)%bind_Some)%bind_Some)%bind_Some.
  apply (tidy_heap s3); [done|].
  eapply tidy_setContents; [|done]. eapply tidy_setContents; [|done].
  destruct (editors s !! (currentPage s + 1)).
  - by simplify_eq.
  - by eapply tidy_createNewPage.
Qed.

Lemma tidy_run_task t s s' : tidy s → run_task t s = Some s' → tidy s'.
Proof.
  intros H. destruct t; simpl.
  - destruct (activeEditor s); [|done]. intros [= <-]. by apply (tidy_heap s).
  - intros [= <-]. by apply (tidy_heap s).
  - destruct (activeEditor s); intros [= <-]; [by apply (tidy_heap s)|done].
Qed.

Section Tidy.

Variable scrollHeight : list Op → Z.

Lemma tidy_moveOverflowContent quill cid s s' :
  tidy s → moveOverflowContent scrollHeight quill cid s = Some s' → tidy s'.
Proof.
  intros H. unfold moveOverflowContent.
  destruct (editors s !! currentPage s) as [nextEditor|];
    [|by intros [= <-]].
  destruct (1 <? length _); [|by intros [= <-]].
  intros (editorElement & _ & (v & Hloop & Hrest)%bind_Some)%bind_Some.
  assert (Hv : tidy (state v)).
  { revert Hloop.
    apply (while_loop_inv (λ v, tidy (state v))); [|done].
    intros st st' Hst. unfold split_body.
    intros (lastOp & _ & (s1 & Hs1 & [= <-])%bind_Some)%bind_Some.
    simpl. by eapply tidy_setContents. }
  destruct (0 <? length (moveOps v)).
  - by eapply tidy_setContents.
  - by injection Hrest as <-.
Qed.

Lemma tidy_text_change source quill s s' :
  tidy s → text_change scrollHeight source quill s = Some s' → tidy s'.
Proof.
  intros H. unfold text_change, on_text_change.
  assert (Hu : tidy (updateStats s)) by by apply (tidy_heap s).
  destruct source; try (intros [= <-]; done).
  intros (s1 & Hs1 & [= <-])%bind_Some.
  apply (tidy_heap s1); [done|].
  unfold checkPageOverflow in Hs1.
  destruct (getEditorElement _ _); [|by simplify_eq].
  destruct (exceeds_page _); [|by simplify_eq].
  apply bind_Some in Hs1 as (s0 & Hs0 & Hs1).
  eapply tidy_moveOverflowContent; [|done]. by eapply tidy_createNewPage.
Qed.

Lemma tidy_user_edit quill newOps s s' :
  tidy s → user_edit scrollHeight quill newOps s = Some s' → tidy s'.
Proof.
  intros H. unfold user_edit. apply tidy_text_change. by apply tidy_store.
Qed.

Lemma tidy_handle e s s' :
  tidy s → handle scrollHeight e s = Some s' → tidy s'.
Proof.
  intros H.
  destruct e as [quill newOps|quill index|key quill|quill newOps index|i];
    simpl.
  - destruct (on_page s quill); [|done]. by apply tidy_user_edit.
  - destruct (on_page s quill); [|done]. intros [= <-].
    by apply (tidy_heap s).
  - destruct (on_page s quill); [|done].
    intros ([b s1] & Hk & ->)%fmap_Some. by eapply tidy_keydown.
  - destruct (on_page s quill); [|done].
    intros ([b s1] & Hk & ->)%fmap_Some.
    destruct (getSelection s quill) as [i|] eqn:Hsel.
    + rewrite (keyboard_enter_widget _ _ _ _ _ i Hsel) in Hk.
      apply bind_Some in Hk as (s2 & Hs2 & [= _ <-]).
      apply (tidy_heap s2); [done|]. by eapply tidy_user_edit.
    + unfold keyboard_enter in Hk. rewrite Hsel in Hk. by simplify_eq.
  - destruct (timers s !! i) as [t|]; [|done]. simpl.
    apply tidy_run_task. by apply (tidy_heap s).
Qed.

(** Every editor of a state that the program can be in holds a document in
    the widget's form: its units are text runs that are not empty and
    embedded objects, no two text runs that could be one are neighbours,
    and the last unit ends with a line terminator. *)
Lemma reachable_tidy s : reachable scrollHeight s → tidy s.
Proof.
  induction 1 as [s Hinit|s e s' _ IH Hstep].
  - rewrite loaded_document_is_loaded in Hinit. injection Hinit as <-.
    intros [|q] Hq; [done|simpl in Hq; lia].
  - by eapply tidy_handle.
Qed.

End Tidy.

(** * Further properties *)

(** ** Renumbering, in any state *)

Lemma renumberPages_display s :
  totalPagesDisplay (renumberPages s) = totalPagesDisplay s ∧
  currentPageDisplay (renumberPages s) = currentPageDisplay s ∧
  lastSaved (renumberPages s) = lastSaved s ∧
  statsText (renumberPages s) = statsText s.
Proof.
  unfold renumberPages.
  destruct (foldl (renumber_step (editors s)) (1, ∅, []) (pages s))
    as [[n m] ps]. done.
Qed.

Lemma State_eq (s s' : State) :
  currentPage s = currentPage s' → editors s = editors s' →
  activeEditor s = activeEditor s' → pages s = pages s' →
  heap s = heap s' → cursor s = cursor s' → timers s = timers s' →
  totalPagesDisplay s = totalPagesDisplay s' →
  currentPageDisplay s = currentPageDisplay s' →
  lastSaved s = lastSaved s' → statsText s = statsText s' → s = s'.
Proof. destruct s, s'. simpl. by intros -> -> -> -> -> -> -> -> -> -> ->. Qed.

(** X1: whatever the ids of the pages and the keys of the registry were,
    [renumberPages] leaves the pages with the ids [1..N] in document order,
    [currentPage] at [N], every key of the registry within [1..N], and each
    page with the editor mounted in it; no editor is touched. *)
Theorem renumberPages_makes_ids_dense (s : State) :
  page_ranks (renumberPages s) = seq 1 (length (pages s)) ∧
  currentPage (renumberPages s) = length (pages s) ∧
  (∀ k q, editors (renumberPages s) !! k = Some q →
     1 ≤ k ≤ length (pages s)) ∧
  mounted <$> pages (renumberPages s) = mounted <$> pages s ∧
  heap (renumberPages s) = heap s.
Proof.
  destruct (renumberPages_spec s) as (Hp & Hc & He & Hh & _).
  split_and!; try done.
  - apply page_ranks_renumberPages.
  - intros k q. rewrite He. case_decide; [done|].
    destruct (pages s !! (k - 1)) eqn:Hl; [|done].
    apply lookup_lt_Some in Hl. lia.
  - rewrite Hp, fmap_imap. by rewrite <- (imap_const mounted).
Qed.

(** X2: renumbering a second time changes nothing, and renumbering a
    well-formed state changes nothing. *)
Theorem renumberPages_idempotent (s : State) :
  renumberPages (renumberPages s) = renumberPages s ∧
  (wf s → renumberPages s = s).
Proof.
  assert (Hfix : ∀ t : State,
            (∀ i p, pages t !! i = Some p →
               page_id p = S i ∧ page_number p = S i ∧ editor_id p = S i) →
            (∀ k q, editors t !! k = Some q → 1 ≤ k ≤ length (pages t)) →
            currentPage t = length (pages t) →
            renumberPages t = t).
  { intros t Hids Hkeys Hcur.
    destruct (renumberPages_spec t) as (Hp & Hc & He & Hh & Ht & Hcu & Ha).
    destruct (renumberPages_display t) as (? & ? & ? & ?).
    apply State_eq; try done; [congruence| |].
    - apply map_eq. intros k. rewrite He. case_decide.
      + symmetry. apply eq_None_not_Some. intros [q Hq%Hkeys]. lia.
      + destruct (pages t !! (k - 1)) as [p|] eqn:Hl; simpl.
        * destruct (Hids _ _ Hl) as (-> & _). by replace (S (k - 1)) with k by lia.
        * symmetry. apply eq_None_not_Some. intros [q Hq%Hkeys].
          apply lookup_ge_None in Hl. lia.
    - rewrite Hp. apply list_eq. intros i. rewrite list_lookup_imap.
      destruct (pages t !! i) as [p|] eqn:Hl; [|done]. simpl.
      destruct (Hids _ _ Hl) as (? & ? & ?). destruct p; simpl in *. congruence. }
  split.
  - destruct (renumberPages_spec s) as (Hp & Hc & He & _).
    apply Hfix.
    + intros i p. rewrite Hp, list_lookup_imap.
      by intros (p0 & _ & ->)%fmap_Some.
    + intros k q. rewrite He, Hp, length_imap. case_decide; [done|].
      destruct (pages s !! (k - 1)) eqn:Hl; [|done].
      apply lookup_lt_Some in Hl. lia.
    + by rewrite Hc, Hp, length_imap.
  - intros Hwf. apply Hfix.
    + intros i p Hl. by destruct (wf_pages s Hwf i p Hl) as (? & ? & ? & _).
    + apply (wf_editors s Hwf).
    + apply (wf_currentPage s Hwf).
Qed.

Lemma renumberPages_idempotent_witness :
  wf two_pages ∧ renumberPages two_pages = two_pages.
Proof.
  split; [apply wf_two_pages|].
  apply (renumberPages_idempotent two_pages), wf_two_pages.
Defined.

(** ** Counting the pages *)

Lemma foldr_max_elem (k : nat) (ks : list nat) :
  foldr Nat.max k ks ∈ k :: ks ∧ ∀ x, x ∈ k :: ks → x ≤ foldr Nat.max k ks.
Proof.
  induction ks as [|y ks [IHin IHle]]; simpl.
  - split; [left|]. by intros x ->%list_elem_of_singleton.
  - split.
    + destruct (Nat.max_spec y (foldr Nat.max k ks)) as [[_ ->]|[_ ->]].
      * apply elem_of_cons in IHin as [->|?]; [left|do 2 right]; done.
      * right; left.
    + intros x [->|[->|Hx]%elem_of_cons]%elem_of_cons.
      * etrans; [apply IHle; left|]. apply Nat.le_max_r.
      * apply Nat.le_max_l.
      * etrans; [apply IHle; by right|]. apply Nat.le_max_r.
Qed.

(** X3: [updatePageCount] fails on an empty registry and on no other; otherwise
    it sets [currentPage] to the largest key of the registry and the page
    total to the number of entries, and leaves the rest alone. *)
Theorem updatePageCount_takes_largest_key (s : State) :
  (updatePageCount s = None ↔ editors s = ∅) ∧
  ∀ s', updatePageCount s = Some s' →
    is_Some (editors s !! currentPage s') ∧
    (∀ k, is_Some (editors s !! k) → k ≤ currentPage s') ∧
    totalPagesDisplay s' = size (editors s) ∧
    editors s' = editors s ∧ pages s' = pages s ∧ heap s' = heap s ∧
    timers s' = timers s ∧ cursor s' = cursor s.
Proof.
  unfold updatePageCount. split.
  - destruct (keys (editors s)) as [|k ks] eqn:Hk.
    + split; [|done]. intros _. apply map_empty. intros i.
      apply eq_None_not_Some. rewrite <- elem_of_keys, Hk.
      apply not_elem_of_nil.
    + split; [done|]. intros Hempty. rewrite Hempty in Hk. done.
  - intros s'. destruct (keys (editors s)) as [|k ks] eqn:Hk; [done|].
    intros [= <-]. simpl.
    destruct (foldr_max_elem k ks) as [Hin Hle].
    split_and!; try done.
    + apply elem_of_keys. by rewrite Hk.
    + intros j Hj. apply Hle. rewrite <- Hk. by apply elem_of_keys.
Qed.

(** ** What a deletion does and does not do *)

Lemma updatePageCount_frame s s' :
  updatePageCount s = Some s' →
  pages s' = pages s ∧ heap s' = heap s ∧ editors s' = editors s.
Proof.
  unfold updatePageCount. destruct (keys (editors s)); [done|].
  by intros [= <-].
Qed.

Lemma updatePageCount_None s : updatePageCount s = None ↔ editors s = ∅.
Proof.
  unfold updatePageCount. destruct (keys (editors s)) as [|k ks] eqn:Hk.
  - split; [|done]. intros _. apply map_empty. intros i.
    apply eq_None_not_Some. rewrite <- elem_of_keys, Hk.
    apply not_elem_of_nil.
  - split; [done|]. intros Hempty. rewrite Hempty in Hk. done.
Qed.

Lemma elem_of_delete_other {A} (l : list A) (i : nat) (x y : A) :
  l !! i = Some x → y ∈ l → y ≠ x → y ∈ delete i l.
Proof.
  intros Hi [j Hj]%list_elem_of_lookup Hne.
  destruct (decide (j < i)) as [Hlt|Hge].
  - apply list_elem_of_lookup. exists j. by rewrite list_lookup_delete_lt.
  - assert (j ≠ i) by (intros ->; congruence).
    apply list_elem_of_lookup. exists (j - 1).
    rewrite list_lookup_delete_ge by lia.
    by replace (S (j - 1)) with j by lia.
Qed.

(** X4: in any state, [deleteEmptyPage] answers [true] only for a number
    other than 1 whose registered editor is empty; then one page element is
    gone and no editor was changed.  When it answers [false], the state is
    as it was.  The embedding has no result in one case: the page is
    deleted and none of the pages that stay is registered, where the code
    leaves [currentPage] at [-Infinity]; no well-formed state is such. *)
Theorem deleteEmptyPage_only_removes_an_empty_page
    (s : State) (pageNum : nat) :
  match deleteEmptyPage pageNum s with
  | Some (true, s') =>
      pageNum ≠ 1 ∧
      (∃ e, editors s !! pageNum = Some e ∧
            isPageEmpty (quillAt s e) = true) ∧
      S (length (pages s')) = length (pages s) ∧
      heap s' = heap s
  | Some (false, s') => s' = s
  | None =>
      pageNum ≠ 1 ∧
      (∃ e, editors s !! pageNum = Some e ∧
            isPageEmpty (quillAt s e) = true) ∧
      (∀ p, p ∈ pages s → page_id p ≠ pageNum →
            editors s !! page_id p = None) ∧
      ¬ wf s
  end.
Proof.
  destruct (deleteEmptyPage pageNum s) as [[deleted s']|] eqn:Hdel.
  - revert Hdel.
    unfold deleteEmptyPage. case_decide; [by intros [= <- <-]|].
    destruct (editors s !! pageNum) as [e|] eqn:He; [|by intros [= <- <-]].
    destruct (getPageById s pageNum) as [i|] eqn:Hi; [|by intros [= <- <-]].
    destruct (isPageEmpty (quillAt s e)) eqn:Hempty; [|by intros [= <- <-]].
    intros ([s2] & Hs2 & [= <- <-])%bind_Some.
    apply updatePageCount_frame in Hs2 as (Hp & Hh & _).
    split; [done|]. split; [by exists e|].
    rewrite Hp, Hh.
    match type of Hp with
    | _ = pages (renumberPages ?x) =>
        destruct (renumberPages_spec x) as (-> & _ & _ & -> & _)
    end.
    rewrite length_imap.
    assert (i < length (pages s)) as Hlt.
    { unfold getPageById in Hi.
      apply fmap_Some in Hi as ([i' p] & Hf%list_find_Some & ->).
      destruct Hf as (Hl%lookup_lt_Some & _). done. }
    destruct (editors _ !! (pageNum - 1)); simpl;
      (split; [|done]);
      rewrite length_delete by (by apply lookup_lt_is_Some_2); lia.
  - assert (Hwf : wf s → pageNum ≠ 1 →
                  ∀ e, editors s !! pageNum = Some e →
                       isPageEmpty (quillAt s e) = true → False).
    { intros Hwf Hne e He Hempty.
      destruct (deleteEmptyPage_wf s pageNum e Hwf Hne He Hempty)
        as (prev & s' & Hs' & _). congruence. }
    revert Hdel.
    unfold deleteEmptyPage. case_decide as Hone; [done|].
    destruct (editors s !! pageNum) as [e|] eqn:He; [|done].
    destruct (getPageById s pageNum) as [i|] eqn:Hi; [|done].
    destruct (isPageEmpty (quillAt s e)) eqn:Hempty; [|done].
    intros Hnone. apply bind_None in Hnone as [Hnone|(? & _ & [=])].
    apply updatePageCount_None in Hnone.
    split; [done|]. split; [by exists e|]. split; [|by eauto].
    intros p Hp Hid.
    unfold getPageById in Hi.
    apply fmap_Some in Hi as ([i' x] & Hf%list_find_Some & ->).
    destruct Hf as (Hx & Hxid & _). simpl in *.
    assert (Hin : p ∈ delete i' (pages s)).
    { eapply elem_of_delete_other; [done..|]. intros ->. done. }
    apply list_elem_of_lookup in Hin as [j Hj].
    match type of Hnone with
    | editors (renumberPages ?x) = _ =>
        destruct (renumberPages_spec x) as (_ & _ & Hed & _);
        assert (Hpx : pages x = delete i' (pages s))
          by (by destruct (delete pageNum (editors s) !! (pageNum - 1)));
        assert (Hex : editors x = delete pageNum (editors s))
          by (by destruct (delete pageNum (editors s) !! (pageNum - 1)))
    end.
    specialize (Hed (S j)). rewrite Hnone, lookup_empty in Hed.
    rewrite decide_False in Hed by lia. simpl in Hed.
    rewrite Nat.sub_0_r, Hpx, Hj in Hed. simpl in Hed.
    rewrite Hex, lookup_delete_ne in Hed by done. done.
Qed.

(** ** A page that is created and deleted again *)

(** The pages and the registry of a well-formed state are told by the
    editors mounted in its pages. *)
Lemma wf_determined_by_mounted s s' :
  wf s → wf s' → mounted <$> pages s' = mounted <$> pages s →
  pages s' = pages s ∧ editors s' = editors s ∧
  currentPage s' = currentPage s.
Proof.
  intros Hwf Hwf' Hm.
  assert (Hlen : length (pages s') = length (pages s)).
  { by rewrite <- (length_fmap mounted), Hm, length_fmap. }
  assert (Hpages : pages s' = pages s).
  { apply list_eq. intros i.
    destruct (pages s' !! i) as [p'|] eqn:Hp'.
    - destruct (wf_page_lookup s' i p' Hwf' Hp') as (q' & -> & _).
      destruct (lookup_lt_is_Some_2 (pages s) i) as [p Hp].
      { apply lookup_lt_Some in Hp'. lia. }
      destruct (wf_page_lookup s i p Hwf Hp) as (q & -> & _).
      assert ((mounted <$> pages s') !! i = (mounted <$> pages s) !! i) as Hi
        by by rewrite Hm.
      rewrite !list_lookup_fmap, Hp, Hp' in Hi. simpl in Hi.
      rewrite Hp. congruence.
    - symmetry. apply lookup_ge_None. apply lookup_ge_None in Hp'. lia. }
  split; [done|]. split.
  - apply map_eq. intros k.
    destruct (decide (1 ≤ k ≤ length (pages s))) as [Hk|Hk].
    + destruct (lookup_lt_is_Some_2 (pages s) (k - 1)) as [p Hp]; [lia|].
      destruct (wf_page_lookup s _ p Hwf Hp) as (q & -> & Hq & _).
      rewrite <- Hpages in Hp.
      destruct (wf_page_lookup s' _ _ Hwf' Hp) as (q' & Heq & Hq' & _).
      replace (S (k - 1)) with k in * by lia. congruence.
    + transitivity (@None loc); [|symmetry]; apply eq_None_not_Some;
        rewrite wf_registry by done; lia.
  - rewrite (wf_currentPage s Hwf), (wf_currentPage s' Hwf'). done.
Qed.

(** X5: in a well-formed state, creating a page and deleting it right away
    succeeds and gives back the pages, the registry and [currentPage]; the
    editors that were there keep their contents. *)
Theorem createNewPage_then_deleteEmptyPage (s : State) :
  wf s →
  ∃ s1 s2,
    createNewPage s = Some s1 ∧
    deleteEmptyPage (S (length (pages s))) s1 = Some (true, s2) ∧
    pages s2 = pages s ∧ editors s2 = editors s ∧
    currentPage s2 = currentPage s ∧
    ∀ q, q < length (heap s) → quillAt s2 q = quillAt s q.
Proof.
  intros Hwf.
  destruct (createNewPage_wf s Hwf) as (s1 & Hs1 & Hp1 & He1 & Hh1 & _).
  pose proof (createNewPage_keeps_wf s s1 Hwf Hs1) as Hwf1.
  destruct (deleteEmptyPage_wf s1 (S (length (pages s))) (length (heap s)) Hwf1)
    as (prev & s2 & Hs2 & Hwf2 & _ & Hm & _ & _ & Hh2 & _).
  { pose proof (wf_nonempty s Hwf). lia. }
  { by rewrite He1, lookup_insert_eq. }
  { unfold quillAt. rewrite Hh1, lookup_total_app_r by done.
    by rewrite Nat.sub_diag. }
  exists s1, s2. split; [done|]. split; [done|].
  assert (mounted <$> pages s2 = mounted <$> pages s) as Hm2.
  { rewrite Hm, Hp1, fmap_app. simpl. rewrite Nat.sub_0_r.
    rewrite <- (length_fmap mounted).
    by rewrite (delete_middle (mounted <$> pages s) []), app_nil_r. }
  destruct (wf_determined_by_mounted s s2 Hwf Hwf2 Hm2) as (? & ? & ?).
  split_and!; try done.
  intros q Hq. unfold quillAt. rewrite Hh2, Hh1.
  by rewrite lookup_total_app_l.
Qed.

Lemma createNewPage_then_deleteEmptyPage_witness :
  wf two_pages ∧
  ∃ s1 s2, createNewPage two_pages = Some s1 ∧
           deleteEmptyPage 3 s1 = Some (true, s2) ∧
           pages s2 = pages two_pages ∧ editors s2 = editors two_pages.
Proof.
  split; [apply wf_two_pages|].
  destruct (createNewPage_then_deleteEmptyPage two_pages wf_two_pages)
    as (s1 & s2 & H1 & H2 & H3 & H4 & _).
  by exists s1, s2.
Defined.

(** ** Which pages count as empty *)

Lemma all_space_app (a b : string) :
  all_space (a +:+ b) = all_space a && all_space b.
Proof.
  induction a as [|c a IH]; [done|].
  change (is_js_space c && all_space (a +:+ b)
          = is_js_space c && all_space a && all_space b).
  by rewrite IH, andb_assoc.
Qed.

Lemma all_space_rev_app (s1 s2 : string) :
  all_space (String.rev_app s1 s2) = all_space s1 && all_space s2.
Proof.
  revert s2. induction s1 as [|c s1 IH]; intros s2; [done|].
  simpl. rewrite IH. simpl.
  destruct (is_js_space c), (all_space s1); done.
Qed.

Lemma all_space_rev (s : string) : all_space (String.rev s) = all_space s.
Proof. unfold String.rev. rewrite all_space_rev_app. apply andb_true_r. Qed.

Lemma trim_start_empty (s : string) : trim_start s = "" ↔ all_space s = true.
Proof.
  induction s as [|c s IH]; [done|]. simpl.
  destruct (is_js_space c); simpl; [done|]. split; discriminate.
Qed.

Lemma all_space_trim_start (s : string) :
  all_space (trim_start s) = all_space s.
Proof.
  induction s as [|c s IH]; [done|]. simpl.
  destruct (is_js_space c) eqn:Hc; simpl; [done|]. by rewrite Hc.
Qed.

Lemma rev_app_empty (s1 s2 : string) :
  String.rev_app s1 s2 = "" → s1 = "" ∧ s2 = "".
Proof.
  revert s2. induction s1 as [|c s1 IH]; intros s2; [done|].
  simpl. by intros [_ [=]]%IH.
Qed.

Lemma rev_empty (s : string) : String.rev s = "" → s = "".
Proof. by intros [? _]%rev_app_empty. Qed.

Lemma trim_empty (s : string) : trim s = "" ↔ all_space s = true.
Proof.
  unfold trim. split.
  - intros H%rev_empty. apply trim_start_empty in H.
    by rewrite all_space_rev, all_space_trim_start in H.
  - intros H. apply trim_start_empty in H. by rewrite H.
Qed.

Lemma getText_embeds (c : nat) (ops : list Op) :
  (∀ o, o ∈ ops → ∃ kind value, insert o = Embed kind value) →
  getText (mkQuill c ops) = "".
Proof.
  unfold getText. simpl. induction ops as [|o ops IH]; intros H; [done|].
  simpl. destruct (H o) as (kind & value & Ho); [left|].
  unfold op_text. rewrite Ho. apply IH. intros o' Ho'. apply H. by right.
Qed.

Lemma all_space_unitsText (ops : list Op) :
  (∀ o, o ∈ ops → all_space (op_text o) = true) →
  all_space (unitsText ops) = true.
Proof.
  induction ops as [|o ops IH]; intros H; [done|].
  rewrite unitsText_cons, all_space_app, (H o) by left.
  apply IH. intros o' Ho'. apply H. by right.
Qed.

(** X6: a page is empty exactly when its text has only characters that [trim]
    strips (the test for a single line terminator adds nothing); so an
    editor that holds embedded objects and no text counts as empty, also
    with the line terminator and other blank text between them. *)
Theorem isPageEmpty_iff_blank_text (quill : Quill) :
  (isPageEmpty quill = all_space (getText quill)) ∧
  ((∀ o, o ∈ contents quill → ∃ kind value, insert o = Embed kind value) →
   isPageEmpty quill = true) ∧
  ((∀ o, o ∈ contents quill → all_space (op_text o) = true) →
   isPageEmpty quill = true).
Proof.
  assert (Hiff : isPageEmpty quill = all_space (getText quill)).
  { unfold isPageEmpty.
    destruct (all_space (getText quill)) eqn:Hall.
    - apply orb_true_iff. right. apply bool_decide_eq_true.
      by apply trim_empty.
    - apply orb_false_iff. split; apply bool_decide_eq_false.
      + intros Heq. rewrite Heq in Hall. done.
      + intros Heq%trim_empty. congruence. }
  split; [done|]. split.
  - intros Hembeds. rewrite Hiff.
    destruct quill as [c ops]. by rewrite getText_embeds.
  - intros Hblank. rewrite Hiff, getText_unitsText.
    by apply all_space_unitsText.
Qed.

Lemma isPageEmpty_iff_blank_text_witness :
  (∀ o, o ∈ contents image_only → all_space (op_text o) = true) ∧
  canonical (contents image_only) ∧
  isPageEmpty image_only = true.
Proof.
  assert (∀ o, o ∈ contents image_only → all_space (op_text o) = true) as H.
  { intros o [->|[->|[]%elem_of_nil]%elem_of_cons]%elem_of_cons; done. }
  split; [done|]. split; [done|].
  by apply (isPageEmpty_iff_blank_text image_only).
Defined.

Lemma wf_blank_two_pages : wf blank_two_pages.
Proof.
  apply (wf_same_shape two_pages); [|apply wf_two_pages].
  repeat split. intros [|[|q]]; reflexivity.
Qed.

Lemma empty_page_deleted_while_number_is_current_witness :
  wf blank_two_pages ∧ rankOf blank_two_pages 1 = Some 2 ∧ 1 < 2 ∧
  containerId (quillAt blank_two_pages 1) = 2 ∧
  isPageEmpty (quillAt blank_two_pages 1) = true ∧
  ∃ s', keydown Backspace 1 blank_two_pages = Some (true, s') ∧
        mounted <$> pages s' = [Some 0] ∧
        timers s' = [FocusActiveEnd 1].
Proof.
  split; [apply wf_blank_two_pages|]. do 4 (split; [done || lia|]).
  destruct (empty_page_deleted_while_number_is_current blank_two_pages 1 2
              Backspace)
    as (prev & s' & _ & Hkey & Hm & _ & _ & Ht & _);
    [apply wf_blank_two_pages|done|lia|done|done|by left|].
  by exists s'.
Defined.

(** ** Shortening a text for display *)

Lemma length_substring_0 (n : nat) (s : string) :
  String.length (String.substring 0 n s) = Nat.min n (String.length s).
Proof.
  revert n. induction s as [|c s IH]; intros [|n]; simpl; try done.
  by rewrite IH.
Qed.

Lemma length_append (a b : string) :
  String.length (a +:+ b) = String.length a + String.length b.
Proof.
  induction a as [|c a IH]; [done|].
  change (S (String.length (a +:+ b)) = S (String.length a + String.length b)).
  by rewrite IH.
Qed.

(** X8: [truncateText] hands back a text that fits as it is; a longer text
    becomes its first [maxLength] characters followed by three dots, which
    is [maxLength + 3] characters: more than the text had when it was one
    or two characters over. *)
Theorem truncateText_length (text : string) (maxLength : nat) :
  (String.length text ≤ maxLength → truncateText text maxLength = text) ∧
  (maxLength < String.length text →
   truncateText text maxLength
     = String.substring 0 maxLength text +:+ "..." ∧
   String.length (truncateText text maxLength) = maxLength + 3) ∧
  String.length (truncateText text maxLength) ≤ maxLength + 3.
Proof.
  unfold truncateText.
  destruct (decide (text = "")) as [->|Hne].
  { simpl. split_and!; [done|lia|lia]. }
  rewrite bool_decide_false by done.
  destruct (Nat.leb_spec (String.length text) maxLength) as [Hle|Hgt].
  - split_and!; [done|lia|lia].
  - assert (String.length (String.substring 0 maxLength text +:+ "...")
            = maxLength + 3) as Hlen.
    { rewrite length_append, length_substring_0. simpl. lia. }
    split_and!; [lia|done|lia].
Qed.

Lemma truncateText_length_witness :
  (String.length "short" ≤ 30 ∧ truncateText "short" 30 = "short") ∧
  (4 < String.length "abcde" ∧ truncateText "abcde" 4 = "abcd...").
Proof.
  split.
  - split; [simpl; lia|].
    apply (truncateText_length "short" 30). simpl. lia.
  - split; [simpl; lia|].
    apply (truncateText_length "abcde" 4). simpl. lia.
Defined.

(** ** The units of the document across a split and across Enter *)

(** The pages of a well-formed state around the page of an editor. *)
Lemma wf_pages_split s quill rank :
  wf s → rankOf s quill = Some rank →
  ∃ front back,
    pages s = front ++ mkPage rank rank rank (Some quill) :: back ∧
    length front = rank - 1 ∧
    ∀ p, p ∈ front ++ back →
      ∃ q, mounted p = Some q ∧ q ≠ quill ∧ q < length (heap s).
Proof.
  intros Hwf Hrank.
  destruct (wf_rank_facts s quill rank Hwf Hrank) as ([? ?] & Hp & _).
  exists (take (rank - 1) (pages s)), (drop (S (rank - 1)) (pages s)).
  split; [by rewrite take_drop_middle|].
  split; [rewrite length_take; lia|].
  assert (Hother : ∀ j p, pages s !! j = Some p → j ≠ rank - 1 →
            ∃ q, mounted p = Some q ∧ q ≠ quill ∧ q < length (heap s)).
  { intros j p Hj Hne.
    destruct (wf_page_lookup s j p Hwf Hj) as (q & -> & _ & Hlt & _).
    exists q. split_and!; try done. intros ->. apply Hne.
    by eapply (wf_mounted_inj s Hwf). }
  intros p [Hin|Hin]%elem_of_app.
  - apply elem_of_take in Hin as (j & Hj & Hlt). apply (Hother j p Hj). lia.
  - apply list_elem_of_lookup in Hin as (j & Hj). rewrite lookup_drop in Hj.
    apply (Hother _ p Hj). lia.
Qed.

Lemma concat_pageContents_ext s s' (l : list PageElem) :
  (∀ p, p ∈ l → pageContents s' p = pageContents s p) →
  concat (pageContents s' <$> l) = concat (pageContents s <$> l).
Proof.
  intros H. f_equal. apply list_fmap_ext. intros i p Hp. apply H.
  apply list_elem_of_lookup. by exists i.
Qed.

(** The document when only the editor of one page and editors created
    later have changed. *)
Lemma document_around s s' quill rank front back :
  pages s = front ++ mkPage rank rank rank (Some quill) :: back →
  (∀ p, p ∈ front ++ back →
     ∃ q, mounted p = Some q ∧ q ≠ quill ∧ q < length (heap s)) →
  (∀ other, other ≠ quill → other < length (heap s) →
     quillAt s' other = quillAt s other) →
  concat (pageContents s' <$> pages s)
  = concat (pageContents s <$> front) ++ contents (quillAt s' quill)
      ++ concat (pageContents s <$> back) ∧
  document s
  = concat (pageContents s <$> front) ++ contents (quillAt s quill)
      ++ concat (pageContents s <$> back).
Proof.
  intros Hp Hother Hsame. unfold document. rewrite Hp.
  rewrite !fmap_app, !fmap_cons, !concat_app, !concat_cons.
  split; [|done]. unfold pageContents at 2. simpl.
  rewrite (concat_pageContents_ext s s' front),
    (concat_pageContents_ext s s' back); [done| |].
  - intros p Hin. destruct (Hother p) as (q & Hq & Hne & Hlt).
    { apply elem_of_app. by right. }
    unfold pageContents. rewrite Hq. simpl. by rewrite Hsame.
  - intros p Hin. destruct (Hother p) as (q & Hq & Hne & Hlt).
    { apply elem_of_app. by left. }
    unfold pageContents. rewrite Hq. simpl. by rewrite Hsame.
Qed.

Section SplitDocument.

Variable scrollHeight : list Op → Z.

(** X9: when the last page overflows with two units or more (and its editor
    container carries the number of its rank), the split loses no unit,
    repeats none and changes no order: the page keeps a first part of its
    units, which is not empty, and the rest, not empty either, is the
    content of the page that was added.  The text of the document is what
    it was, but for one line terminator, which the widget puts behind the
    part that stays when that part does not end with one. *)
Theorem split_of_last_page_keeps_document (s : State) (quill : loc) :
  wf s → canonical (contents (quillAt s quill)) →
  rankOf s quill = Some (length (pages s)) →
  containerId (quillAt s quill) = length (pages s) →
  exceeds_page (scrollHeight (contents (quillAt s quill))) = true →
  2 ≤ length (contents (quillAt s quill)) →
  ∃ s' front kept moved,
    text_change scrollHeight User quill s = Some s' ∧
    length (pages s') = S (length (pages s)) ∧
    kept ≠ [] ∧ moved ≠ [] ∧
    contents (quillAt s quill) = kept ++ moved ∧
    document s = front ++ kept ++ moved ∧
    document s' = front ++ normalise kept ++ moved ∧
    documentText s
    = unitsText front +:+ unitsText kept +:+ unitsText moved ∧
    documentText s'
    = unitsText front +:+ unitsText kept
        +:+ (if ends_last kept then "" else newline) +:+ unitsText moved.
Proof.
  intros Hwf Hcan Hrank Hid Hover Htwo.
  set (rank := length (pages s)) in *.
  destruct (wf_rank_facts s quill rank Hwf Hrank) as (_ & _ & _ & Hlt & _).
  destruct (wf_pages_split s quill rank Hwf Hrank)
    as (front & back & Hpages & Hfront & Hothers).
  assert (back = []) as ->.
  { apply (f_equal length) in Hpages. rewrite length_app in Hpages.
    simpl in Hpages. fold rank in Hpages.
    destruct back; [done|]. simpl in Hpages.
    pose proof (wf_nonempty s Hwf). lia. }
  assert (Hrun : ∃ s' kept moved,
            text_change scrollHeight User quill s = Some s' ∧
            pages s' = pages s ++
              [mkPage (S rank) (S rank) (S rank) (Some (length (heap s)))] ∧
            kept ++ moved = contents (quillAt s quill) ∧
            (contents (quillAt s quill) = [] ∨ 1 ≤ length kept) ∧
            moved ≠ [] ∧
            contents (quillAt s' quill) = normalise kept ∧
            contents (quillAt s' (length (heap s))) = normalise moved ∧
            ∀ other, other ≠ quill → other < length (heap s) →
              quillAt s' other = quillAt s other).
  { unfold text_change, on_text_change.
    change (quillAt (updateStats s) quill) with (quillAt s quill).
    rewrite Hid.
    destruct (checkPageOverflow_split scrollHeight (updateStats s) quill rank)
      as (s' & kept & moved & -> & _ & Hp' & _ & Hkm & Hone & Hpop & Hmoved
          & _ & _ & Hsame); [by apply wf_updateStats|done..|].
    cbn [mbind option_bind].
    destruct (Hmoved (Hpop Htwo)) as (Hkept & Hnew & _).
    exists (set_lastSaved "Unsaved changes" s'), kept, moved.
    split_and!; try done. by apply Hpop. }
  destruct Hrun as (s' & kept & moved & Hs' & Hp' & Hkm & Hone & Hpop
                    & Hkept & Hnew & Hsame).
  assert (Hk : kept ≠ []).
  { destruct Hone as [Hnil|Hone].
    - rewrite Hnil in Htwo. simpl in Htwo. lia.
    - intros ->. simpl in Hone. lia. }
  rewrite <- Hkm in Hcan.
  pose proof (canonical_suffix kept moved Hcan Hpop) as Hcm.
  rewrite Hcm in Hnew.
  destruct (document_around s s' quill rank front [] Hpages Hothers Hsame)
    as (Hdoc' & Hdoc).
  rewrite <- Hkm, !app_nil_r in Hdoc. simpl in Hdoc', Hdoc.
  rewrite app_nil_r in Hdoc'.
  assert (Hd' : document s'
                = concat (pageContents s <$> front) ++ normalise kept ++ moved).
  { unfold document at 1. rewrite Hp', fmap_app, concat_app, Hdoc'. simpl.
    unfold pageContents at 2. simpl. fold rank.
    by rewrite Hkept, Hnew, app_nil_r, <- app_assoc. }
  exists s', (concat (pageContents s <$> front)), kept, moved.
  split_and!; try done.
  - rewrite Hp', length_app. simpl. lia.
  - unfold documentText. by rewrite Hdoc, !unitsText_app.
  - unfold documentText. rewrite Hd', !unitsText_app.
    rewrite unitsText_canonical_prefix, !append_assoc; [done|].
    apply canonical_iff in Hcan as [Hsep _].
    by apply separate_app in Hsep as [? _].
Qed.

End SplitDocument.

Lemma wf_scenario_A : wf scenario_A.
Proof.
  apply (wf_same_shape loaded_document); [|apply wf_loaded_document].
  repeat split. intros [|q]; reflexivity.
Qed.

Lemma split_of_last_page_keeps_document_witness :
  wf scenario_A ∧ canonical (contents (quillAt scenario_A 0)) ∧
  rankOf scenario_A 0 = Some 1 ∧
  containerId (quillAt scenario_A 0) = 1 ∧
  exceeds_page (tall_units (contents (quillAt scenario_A 0))) = true ∧
  2 ≤ length (contents (quillAt scenario_A 0)) ∧
  documentText scenario_A = "Hello world" +:+ newline ∧
  ∃ s', text_change tall_units User 0 scenario_A = Some s' ∧
        documentText s' = "Hello " +:+ newline +:+ "world" +:+ newline.
Proof.
  split; [apply wf_scenario_A|]. do 5 (split; [done || (simpl; lia)|]).
  split; [done|].
  destruct (split_of_last_page_keeps_document tall_units scenario_A 0)
    as (s' & front & kept & moved & Hs' & _);
    [apply wf_scenario_A|done..|simpl; lia|].
  exists s'. split; [done|].
  vm_compute in Hs'. injection Hs' as <-. by vm_compute.
Defined.

(** The handler of Enter, run at offset 0 of any page of a well-formed
    state: what it leaves in each editor. *)
Lemma enter_at_start_detail (s : State) (quill : loc) (rank : nat) :
  wf s → rankOf s quill = Some rank → getSelection s quill = Some 0 →
  ∃ s',
    enter_binding quill s = Some (true, s') ∧
    pages s' = pages s ++
      [mkPage (S (length (pages s))) (S (length (pages s)))
         (S (length (pages s))) (Some (length (heap s)))] ∧
    contents (quillAt s' quill) = [plain newline] ∧
    contents (quillAt s' (length (heap s)))
      = normalise (contents (quillAt s quill)) ∧
    ∀ other, other ≠ quill → other < length (heap s) →
      quillAt s' other = quillAt s other.
Proof.
  intros Hwf Hrank Hsel.
  destruct (wf_rank_facts s quill _ Hwf Hrank) as (_ & _ & _ & Hlt & _).
  unfold enter_binding, handleEnterAtBeginning. rewrite Hsel.
  assert (editors s !! (currentPage s + 1) = None) as ->.
  { apply eq_None_not_Some. intros [q Hq].
    apply (wf_editors s Hwf) in Hq. rewrite (wf_currentPage s Hwf) in Hq. lia. }
  destruct (createNewPage_wf s Hwf)
    as (s1 & Hs1 & Hp1 & He1 & Hh1 & Hc1 & _).
  rewrite Hs1. cbn [mbind option_bind].
  rewrite Hc1, He1, lookup_insert_eq. cbn [mbind option_bind].
  set (new := length (heap s)) in *.
  set (content0 := contents (quillAt s quill)).
  destruct (setContents new content0 s1) as [s2|] eqn:Hs2;
    [|by rewrite setContents_eq in Hs2].
  cbn [mbind option_bind].
  destruct (setContents quill [] s2) as [s3|] eqn:Hs3;
    [|by rewrite setContents_eq in Hs3].
  cbn [mbind option_bind].
  apply setContents_Some in Hs2
    as (Hp2 & _ & _ & _ & _ & _ & Hh2 & _ & Hoth2 & Hcont2).
  apply setContents_Some in Hs3
    as (Hp3 & _ & _ & _ & _ & _ & _ & _ & Hoth3 & Hcont3).
  assert (Hlen1 : length (heap s1) = S new).
  { rewrite Hh1, length_app. simpl. unfold new. lia. }
  eexists. split; [done|].
  change (quillAt (setTimeout _ s3)) with (quillAt s3). simpl.
  split_and!.
  - congruence.
  - rewrite Hcont3 by lia. done.
  - rewrite Hoth3 by lia. apply Hcont2. lia.
  - intros other Hne Hother. rewrite Hoth3 by done. rewrite Hoth2 by lia.
    unfold quillAt. rewrite Hh1. by rewrite lookup_total_app_l.
Qed.

(** X10: the handler that [createQuillEditor] binds to Enter, run at offset 0
    of a page that holds a document of the widget, loses no unit: the units
    of the document afterwards are those before and the line terminator
    that is left in the page that was cleared.  The content of the page is
    on a new last page, behind the pages that followed it; when the page
    was the last one, the units are in the order they were in. *)
Theorem enter_at_start_keeps_units (s : State) (quill : loc) (rank : nat) :
  wf s → canonical (contents (quillAt s quill)) →
  rankOf s quill = Some rank → getSelection s quill = Some 0 →
  ∃ s',
    enter_binding quill s = Some (true, s') ∧
    length (pages s') = S (length (pages s)) ∧
    contents (quillAt s' (length (heap s))) = contents (quillAt s quill) ∧
    document s' ≡ₚ plain newline :: document s ∧
    (rank = length (pages s) →
     ∃ front,
       document s = front ++ contents (quillAt s quill) ∧
       document s' = front ++ plain newline :: contents (quillAt s quill)).
Proof.
  intros Hwf Hcan Hrank Hsel.
  destruct (enter_at_start_detail s quill rank Hwf Hrank Hsel)
    as (s' & Hs' & Hp & Hq & Hnew & Hsame).
  rewrite Hcan in Hnew.
  destruct (wf_pages_split s quill rank Hwf Hrank)
    as (front & back & Hpages & Hfront & Hothers).
  destruct (document_around s s' quill rank front back Hpages Hothers Hsame)
    as (Hdoc' & Hdoc).
  assert (Hd : document s'
               = concat (pageContents s <$> front)
                   ++ plain newline :: concat (pageContents s <$> back)
                   ++ contents (quillAt s quill)).
  { unfold document. rewrite Hp, fmap_app, concat_app, Hdoc', Hq. simpl.
    unfold pageContents at 3. simpl. rewrite Hnew, app_nil_r.
    by rewrite <- app_assoc. }
  exists s'. split; [done|]. split; [rewrite Hp, length_app; simpl; lia|].
  split; [done|]. rewrite Hd, Hdoc. split.
  - rewrite <- Permutation_middle. constructor. f_equiv.
    apply Permutation_app_comm.
  - intros ->. assert (back = []) as ->.
    { apply (f_equal length) in Hpages. rewrite length_app in Hpages.
      simpl in Hpages. destruct back; [done|]. simpl in Hpages.
      pose proof (wf_nonempty s Hwf). lia. }
    exists (concat (pageContents s <$> front)). simpl.
    by rewrite app_nil_r.
Qed.

Lemma wf_two_pages_at_start : wf two_pages_at_start.
Proof.
  apply (wf_same_shape two_pages); [by repeat split|apply wf_two_pages].
Qed.

Lemma enter_at_start_keeps_units_witness :
  wf two_pages_at_start ∧ canonical (contents (quillAt two_pages_at_start 0)) ∧
  rankOf two_pages_at_start 0 = Some 1 ∧
  getSelection two_pages_at_start 0 = Some 0 ∧
  ∃ s', enter_binding 0 two_pages_at_start = Some (true, s') ∧
        length (pages s') = 3 ∧
        contents (quillAt s' 2) = contents (quillAt two_pages_at_start 0) ∧
        document s' ≡ₚ plain newline :: document two_pages_at_start.
Proof.
  split; [apply wf_two_pages_at_start|]. do 3 (split; [done|]).
  destruct (enter_at_start_keeps_units two_pages_at_start 0 1)
    as (s' & Hs' & Hlen & Hnew & Hperm & _);
    [apply wf_two_pages_at_start|done..|].
  by exists s'.
Defined.

(** ** The editor of the first page *)

Lemma first_editor_pages s s' : pages s' = pages s → first_editor s' = first_editor s.
Proof. unfold first_editor. by intros ->. Qed.

Lemma first_editor_same_shape s s' :
  same_shape s s' → first_editor s' = first_editor s.
Proof. intros (Hp & _). by apply first_editor_pages. Qed.

Lemma first_editor_createNewPage s s' :
  wf s → createNewPage s = Some s' → first_editor s' = first_editor s.
Proof.
  intros Hwf Hs'. destruct (createNewPage_wf s Hwf) as (s1 & Hs1 & Hp & _).
  rewrite Hs1 in Hs'. injection Hs' as ->. unfold first_editor. rewrite Hp.
  pose proof (wf_nonempty s Hwf). destruct (pages s); [simpl in *; lia|done].
Qed.

Lemma first_editor_removed s s' r :
  2 ≤ r → mounted <$> pages s' = delete (r - 1) (mounted <$> pages s) →
  first_editor s' = first_editor s.
Proof.
  intros Hr Hm. unfold first_editor. rewrite Hm.
  replace (r - 1) with (S (r - 2)) by lia.
  by destruct (mounted <$> pages s).
Qed.

Lemma first_editor_deleteEmptyPage s k b s' :
  wf s → deleteEmptyPage k s = Some (b, s') →
  first_editor s' = first_editor s.
Proof.
  intros Hwf Hdel.
  destruct (decide (k = 1)) as [->|Hk].
  { rewrite deleteEmptyPage_one in Hdel. by simplify_eq. }
  destruct (editors s !! k) as [e|] eqn:He.
  - destruct (isPageEmpty (quillAt s e)) eqn:Hempty.
    + destruct (deleteEmptyPage_wf s k e Hwf Hk He Hempty)
        as (prev & s1 & Hs1 & _ & _ & Hm & _).
      rewrite Hs1 in Hdel. simplify_eq.
      apply (first_editor_removed s s' k); [|done].
      pose proof (wf_editors s Hwf k e He). lia.
    + unfold deleteEmptyPage in Hdel. rewrite decide_False in Hdel by done.
      rewrite He in Hdel. destruct (getPageById s k); [|by simplify_eq].
      rewrite Hempty in Hdel. by simplify_eq.
  - rewrite deleteEmptyPage_unregistered in Hdel by done. by simplify_eq.
Qed.

Lemma first_editor_moveContentToPreviousPage quill cid s b s' :
  wf s → moveContentToPreviousPage quill cid s = Some (b, s') →
  first_editor s' = first_editor s.
Proof.
  intros Hwf. unfold moveContentToPreviousPage.
  destruct (rankOf s quill) as [rank|] eqn:Hrank; [|by intros [= _ <-]].
  case_decide; [by intros [= _ <-]|].
  destruct (editors s !! (rank - 1)) as [prev|] eqn:Hprev;
    [|by intros [= _ <-]].
  intros Hrun.
  apply bind_Some in Hrun as (s1 & Hs1 & Hrun).
  apply bind_Some in Hrun as (s2 & Hs2 & Hrun).
  apply bind_Some in Hrun as (s3 & Hs3 & Hrun).
  injection Hrun as _ <-.
  apply setContents_same_shape in Hs1, Hs2.
  pose proof (same_shape_trans _ _ _ Hs1 Hs2) as (Hp & He & Hc & Hh & Hid).
  apply rankOf_Some in Hrank as (p & Hr & Hp' & _).
  apply lookup_lt_Some in Hp'.
  match type of Hs3 with
  | updatePageCount (renumberPages ?x) = _ => set (s0 := x) in *
  end.
  destruct (remove_page_wf s s0 rank Hwf) as (s3' & Hs3' & _ & Hm & _);
    [lia|by rewrite <- Hp|by rewrite <- He|done..|].
  rewrite Hs3' in Hs3. simplify_eq.
  apply (first_editor_removed s s3 rank); [lia|done].
Qed.

Lemma first_editor_handleEnterAtBeginning quill cid s b s' :
  wf s → handleEnterAtBeginning quill cid s = Some (b, s') →
  first_editor s' = first_editor s.
Proof.
  intros Hwf. unfold handleEnterAtBeginning.
  destruct (getSelection s quill) as [[|?]|]; try by intros [= _ <-].
  intros Hrun.
  apply bind_Some in Hrun as (s1 & Hs1 & Hrun).
  apply bind_Some in Hrun as (nextEditor & Hnext & Hrun).
  apply bind_Some in Hrun as (s2 & Hs2 & Hrun).
  apply bind_Some in Hrun as (s3 & Hs3 & Hrun).
  injection Hrun as _ <-.
  apply setContents_same_shape, first_editor_same_shape in Hs2, Hs3.
  change (first_editor (setTimeout (FocusAt nextEditor 0) s3))
    with (first_editor s3).
  rewrite Hs3, Hs2.
  destruct (editors s !! (currentPage s + 1)).
  - by simplify_eq.
  - by apply first_editor_createNewPage.
Qed.

Lemma first_editor_keydown key quill s b s' :
  wf s → keydown key quill s = Some (b, s') →
  first_editor s' = first_editor s.
Proof.
  intros Hwf. unfold keydown.
  assert (Hdel : ∀ k r, (deleteEmptyPage k s
             ≫= λ '(_, s0), Some (true, s0)) = Some r →
             first_editor r.2 = first_editor s).
  { intros k [b' r] ([d s1] & Hd & [= _ <-])%bind_Some.
    by eapply first_editor_deleteEmptyPage. }
  repeat case_match; try (intros [= _ <-]; done);
    try (intros Hr; by apply Hdel in Hr).
  intros ([d s1] & Hd & [= _ <-])%bind_Some.
  by eapply first_editor_moveContentToPreviousPage.
Qed.

Lemma first_editor_user_edit scrollHeight quill newOps s s' :
  wf s → user_edit scrollHeight quill newOps s = Some s' →
  first_editor s' = first_editor s.
Proof.
  intros Hwf. unfold user_edit, text_change, on_text_change.
  set (s0 := set_heap _ s).
  assert (wf s0) as Hwf0.
  { revert Hwf. apply wf_same_shape.
    repeat split; simpl; [by rewrite length_alter|].
    intros q. apply containerId_alter. }
  unfold checkPageOverflow.
  destruct (getEditorElement _ _) as [el|]; [|by intros [= <-]].
  destruct (exceeds_page _); [|by intros [= <-]].
  destruct (createNewPage (updateStats s0)) as [s1|] eqn:Hs1; [|done].
  simpl.
  destruct (moveOverflowContent _ _ _ s1) as [s2|] eqn:Hs2; [|done].
  simpl. intros [= <-].
  apply moveOverflowContent_same_shape, first_editor_same_shape in Hs2.
  apply first_editor_createNewPage in Hs1; [|by apply wf_updateStats].
  change (first_editor (set_lastSaved _ s2)) with (first_editor s2).
  by rewrite Hs2, Hs1.
Qed.

Lemma first_editor_handle scrollHeight e s s' :
  wf s → handle scrollHeight e s = Some s' →
  first_editor s' = first_editor s.
Proof.
  intros Hwf.
  destruct e as [quill newOps|quill index|key quill|quill newOps index|i];
    simpl.
  - destruct (on_page s quill); [|done]. by apply first_editor_user_edit.
  - destruct (on_page s quill); [|done]. by intros [= <-].
  - destruct (on_page s quill); [|done].
    intros ([b s1] & Hk & ->)%fmap_Some. by eapply first_editor_keydown.
  - destruct (on_page s quill); [|done].
    intros ([b s1] & Hk & ->)%fmap_Some.
    destruct (getSelection s quill) as [i|] eqn:Hsel.
    + rewrite (keyboard_enter_widget _ _ _ _ _ i Hsel) in Hk.
      apply bind_Some in Hk as (s2 & Hs2 & [= _ <-]).
      change (first_editor s2 = first_editor s).
      by eapply first_editor_user_edit.
    + unfold keyboard_enter in Hk. rewrite Hsel in Hk. by simplify_eq.
  - destruct (timers s !! i) as [t|]; [|done]. simpl.
    destruct t; simpl.
    + destruct (activeEditor s); [|done]. by intros [= <-].
    + by intros [= <-].
    + destruct (activeEditor s); by intros [= <-].
Qed.

(** X11: however the document is edited, the first page keeps the editor that
    was created when the page loaded: it is registered under 1, it is
    mounted in the first page, and its handlers hold the number 1. *)
Theorem first_page_keeps_its_editor (scrollHeight : list Op → Z) (s : State) :
  reachable scrollHeight s →
  first_editor s = Some (Some 0) ∧ editors s !! 1 = Some 0 ∧
  rankOf s 0 = Some 1 ∧ containerId (quillAt s 0) = 1.
Proof.
  intros Hreach.
  assert (first_editor s = Some (Some 0)) as Hfirst.
  { induction Hreach as [s Hinit|s e s' Hreach IH Hstep].
    - rewrite loaded_document_is_loaded in Hinit. by injection Hinit as <-.
    - rewrite (first_editor_handle scrollHeight e s s'); [done| |done].
      by eapply reachable_wf. }
  pose proof (reachable_wf scrollHeight s Hreach) as Hwf.
  unfold first_editor in Hfirst. rewrite head_lookup, list_lookup_fmap in Hfirst.
  destruct (pages s !! 0) as [p|] eqn:Hp; [|done].
  injection Hfirst as Hm.
  assert (rankOf s 0 = Some 1) as Hrank by by eapply wf_rankOf.
  destruct (wf_rank_facts s 0 1 Hwf Hrank) as (_ & _ & He & _).
  split_and!; try done.
  - unfold first_editor. by rewrite head_lookup, list_lookup_fmap, Hp, <- Hm.
  - by eapply (wf_first s Hwf).
Qed.

Lemma first_page_keeps_its_editor_witness :
  reachable by_length stale_document ∧ editors stale_document !! 1 = Some 0.
Proof.
  split; [apply stale_document_reachable|].
  apply (first_page_keeps_its_editor by_length stale_document).
  apply stale_document_reachable.
Defined.

(** ** The statistics *)

Lemma split_spaces_length (s : string) :
  length (split_spaces false s)
    = 1 + word_runs true s + (if ends_blank s then 1 else 0) ∧
  length (split_spaces true s)
    = word_runs false s
      + (if ends_blank (String (Ascii.ascii_of_nat 32) s) then 1 else 0).
Proof.
  induction s as [|c s [IHf IHt]]; [done|].
  assert (Hend : ∀ d, ends_blank (String d (String c s))
                      = ends_blank (String c s)) by done.
  rewrite Hend.
  assert (Hs : ends_blank (String (Ascii.ascii_of_nat 32) s)
               = match s with
                 | EmptyString => true
                 | String _ _ => ends_blank s
                 end) by by destruct s.
  rewrite Hs in IHt. simpl split_spaces. simpl word_runs.
  destruct (is_js_space c) eqn:Hc.
  - simpl length. rewrite IHt.
    assert (ends_blank (String c s)
            = match s with
              | EmptyString => true
              | String _ _ => ends_blank s
              end) as -> by (simpl; by rewrite Hc).
    split; lia.
  - assert (ends_blank (String c s) = ends_blank s) as ->.
    { simpl. rewrite Hc. by destruct s. }
    destruct (split_spaces false s) as [|piece pieces] eqn:Hsp;
      simpl in IHf; [lia|].
    simpl length. rewrite IHf. split; lia.
Qed.

Lemma word_runs_app_blank (w : bool) (a b : string) :
  a ≠ "" → all_space a = true → word_runs w (a +:+ b) = word_runs false b.
Proof.
  revert w. induction a as [|c a IH]; [done|]. intros w _ Hall.
  simpl in Hall. apply andb_true_iff in Hall as [Hc Ha].
  change (String c a +:+ b) with (String c (a +:+ b)). simpl. rewrite Hc.
  destruct a; [done|]. by apply IH.
Qed.

Lemma word_runs_blank_l (a b : string) :
  all_space a = true → word_runs false (a +:+ b) = word_runs false b.
Proof.
  destruct a as [|c a]; [done|]. intros H.
  by apply word_runs_app_blank.
Qed.

Lemma word_runs_all_space (w : bool) (b : string) :
  all_space b = true → word_runs w b = 0.
Proof.
  revert w. induction b as [|c b IH]; intros w; [done|]. simpl.
  intros [-> Hb]%andb_true_iff. by apply IH.
Qed.

Lemma word_runs_blank_r (w : bool) (a b : string) :
  all_space b = true → word_runs w (a +:+ b) = word_runs w a.
Proof.
  intros Hb. revert w. induction a as [|c a IH]; intros w.
  - simpl. by apply word_runs_all_space.
  - change (String c a +:+ b) with (String c (a +:+ b)). simpl.
    by rewrite !IH.
Qed.

Lemma rev_app_append (s1 s2 : string) :
  String.rev_app s1 s2 = String.rev s1 +:+ s2.
Proof.
  unfold String.rev. revert s2.
  induction s1 as [|c s1 IH]; intros s2; [done|]. simpl.
  rewrite (IH (String c s2)), (IH (String c "")).
  by rewrite append_assoc.
Qed.

Lemma rev_append (a b : string) :
  String.rev (a +:+ b) = String.rev b +:+ String.rev a.
Proof.
  induction a as [|c a IH].
  - simpl. by rewrite append_nil_r.
  - change (String c a +:+ b) with (String c (a +:+ b)).
    unfold String.rev at 1 3. simpl. rewrite !rev_app_append, IH.
    by rewrite append_assoc.
Qed.

Lemma rev_involutive (s : string) : String.rev (String.rev s) = s.
Proof.
  induction s as [|c s IH]; [done|].
  unfold String.rev at 2. simpl. rewrite rev_app_append, rev_append, IH.
  done.
Qed.

Lemma trim_start_split (s : string) :
  ∃ a, s = a +:+ trim_start s ∧ all_space a = true ∧
       (trim_start s = "" ∨ starts_word (trim_start s) = true).
Proof.
  induction s as [|c s (a & Ha & Hall & Hst)].
  - exists "". split_and!; try done. by left.
  - simpl. destruct (is_js_space c) eqn:Hc.
    + exists (String c a). split_and!; try done.
      * change (String c a +:+ trim_start s) with (String c (a +:+ trim_start s)).
        by rewrite <- Ha.
      * simpl. by rewrite Hc.
    + exists "". split_and!; try done. right. simpl. by rewrite Hc.
Qed.

Lemma ends_blank_snoc (s : string) (c : Ascii.ascii) :
  ends_blank (s +:+ String c "") = is_js_space c.
Proof.
  induction s as [|d s IH]; [done|].
  change (String d s +:+ String c "") with (String d (s +:+ String c "")).
  simpl. rewrite IH. by destruct s.
Qed.

(** [trim] takes a blank part off each end and leaves a text that is empty
    or begins and ends with characters that are not blank. *)
Lemma trim_split (t : string) :
  ∃ a b, t = a +:+ trim t +:+ b ∧ all_space a = true ∧ all_space b = true ∧
         (trim t = "" ∨
          starts_word (trim t) = true ∧ ends_blank (trim t) = false).
Proof.
  unfold trim.
  destruct (trim_start_split t) as (a & Ha & Halla & Hsta).
  set (s1 := trim_start t) in *.
  destruct (trim_start_split (String.rev s1)) as (b' & Hb & Hallb & Hstb).
  set (u := trim_start (String.rev s1)) in *.
  assert (Hs1 : s1 = String.rev u +:+ String.rev b').
  { rewrite <- (rev_involutive s1), Hb. apply rev_append. }
  exists a, (String.rev b'). split_and!.
  - by rewrite <- Hs1.
  - done.
  - by rewrite all_space_rev.
  - destruct Hstb as [->|Hu]; [by left|]. right.
    destruct u as [|c u]; [done|].
    unfold String.rev at 1 2. simpl. rewrite rev_app_append.
    split; [|rewrite ends_blank_snoc; simpl in Hu; by destruct (is_js_space c)].
    destruct Hsta as [Hempty|Hst].
    + rewrite Hempty in Hs1. unfold String.rev at 1 in Hs1. simpl in Hs1.
      rewrite rev_app_append in Hs1. by destruct (String.rev u).
    + rewrite Hs1 in Hst. unfold String.rev at 1 in Hst. simpl in Hst.
      rewrite rev_app_append in Hst. by destruct (String.rev u).
Qed.

Lemma wordCount_word_runs (t : string) : wordCount t = word_runs false t.
Proof.
  unfold wordCount.
  destruct (trim_split t) as (a & b & Ht & Ha & Hb & Hu).
  assert (word_runs false t = word_runs false (trim t)) as ->.
  { rewrite Ht at 1. by rewrite word_runs_blank_l, word_runs_blank_r. }
  destruct Hu as [->|[Hst Hend]]; [done|].
  destruct (trim t) as [|c u] eqn:Htrim; [done|].
  rewrite bool_decide_false by done.
  rewrite (proj1 (split_spaces_length (String c u))), Hend.
  simpl in *. destruct (is_js_space c); [done|]. simpl. lia.
Qed.

Lemma word_runs_cons (w : bool) (c : Ascii.ascii) (r : string) :
  word_runs w (String c r)
  = if is_js_space c then word_runs false r
    else (if w then 0 else 1) + word_runs true r.
Proof. done. Qed.

Lemma word_runs_append (a b : string) :
  a = "" ∨ ends_blank a = true →
  word_runs false (a +:+ b) = word_runs false a + word_runs false b.
Proof.
  intros [->|Hend]; [done|].
  assert (∀ w, word_runs w (a +:+ b) = word_runs w a + word_runs false b)
    as H; [|apply H].
  induction a as [|c a IH]; [done|]. intros w.
  change (String c a +:+ b) with (String c (a +:+ b)).
  destruct a as [|d a].
  - simpl in Hend. simpl. by rewrite Hend.
  - simpl in Hend. specialize (IH Hend).
    rewrite !(word_runs_cons _ c), !IH. destruct (is_js_space c); lia.
Qed.

(** X12: the word counter counts the maximal runs of characters that are not
    blank; no word means a text of blanks only.  [updateStats] joins the
    texts of the editors without a separator, so the total is the sum of
    the counts of the pages when each text ends with a blank character, as
    it does with the line terminator the widget puts at the end. *)
Theorem wordCount_counts_runs :
  (∀ t, wordCount t = word_runs false t) ∧
  (∀ t, wordCount t = 0 ↔ all_space t = true) ∧
  (∀ texts : list string,
     Forall (λ t, ends_blank t = true) texts →
     wordCount (concat_strings texts) = sum_list (wordCount <$> texts)).
Proof.
  split; [apply wordCount_word_runs|]. split.
  - intros t. unfold wordCount. rewrite <- trim_empty.
    destruct (decide (trim t = "")) as [He|Hne].
    + by rewrite bool_decide_true.
    + rewrite bool_decide_false by done. split; [|done].
      pose proof (proj1 (split_spaces_length (trim t))) as Hlen. lia.
  - intros texts Hall. rewrite wordCount_word_runs.
    induction Hall as [|t texts Ht Hall IH]; [done|].
    simpl. rewrite word_runs_append by by right.
    by rewrite IH, wordCount_word_runs.
Qed.

Lemma wordCount_counts_runs_witness :
  Forall (λ t, ends_blank t = true) ["one two "; "three "] ∧
  wordCount (concat_strings ["one two "; "three "]) = 3.
Proof.
  assert (Forall (λ t, ends_blank t = true) ["one two "; "three "]) as H
    by (repeat constructor).
  split; [done|].
  destruct wordCount_counts_runs as (_ & _ & Hsum). by rewrite (Hsum _ H).
Defined.

Lemma split_lines_all_space (t : string) :
  all_space t = true → Forall (λ p, all_space p = true) (split_lines t).
Proof.
  induction t as [|c t IH]; [by repeat constructor|]. simpl.
  intros [Hc Ht]%andb_true_iff. specialize (IH Ht).
  destruct (Ascii.eqb c (Ascii.ascii_of_nat 10)); [by constructor|].
  destruct (split_lines t) as [|line lines].
  { constructor; [simpl; by rewrite Hc|constructor]. }
  apply Forall_cons in IH as [Hline Hlines].
  constructor; [|done]. simpl. by rewrite Hc.
Qed.

Lemma ceil_div_200 (n : nat) :
  n ≤ 200 * ceil_div n 200 ∧ (0 < n → 200 * (ceil_div n 200 - 1) < n) ∧
  (ceil_div n 200 = 0 ↔ n = 0).
Proof.
  unfold ceil_div.
  pose proof (Nat.div_mod_eq n 200). pose proof (Nat.mod_upper_bound n 200).
  destruct (Nat.eqb_spec (n mod 200) 0); lia.
Qed.

(** X13: the reading time is the word count over 200, rounded up, and never less
    than one minute; the paragraph count is never less than one; and a
    document of blank characters only shows no word, one paragraph and one
    minute. *)
Theorem statistics_of_a_text (t : string) :
  1 ≤ readingTime t ∧ 1 ≤ paragraphCount t ∧
  wordCount t ≤ 200 * readingTime t ∧
  (0 < wordCount t → 200 * (readingTime t - 1) < wordCount t) ∧
  (all_space t = true →
   wordCount t = 0 ∧ paragraphCount t = 1 ∧ readingTime t = 1).
Proof.
  destruct (ceil_div_200 (wordCount t)) as (Hup & Hlow & Hzero).
  assert (Hblank : all_space t = true → wordCount t = 0).
  { intros Hall. unfold wordCount.
    by rewrite bool_decide_true by by apply trim_empty. }
  unfold readingTime, paragraphCount.
  destruct (Nat.eqb_spec (ceil_div (wordCount t) 200) 0) as [H0|H0].
  - apply Hzero in H0 as Hw. split_and!; try lia.
    intros Hall. split_and!; try done.
    apply split_lines_all_space in Hall.
    induction Hall as [|p ps Hp Hps IH]; [done|].
    rewrite filter_cons_False; [done|]. apply trim_empty in Hp.
    rewrite Hp. simpl. lia.
  - split_and!; try lia.
    intros Hall. apply Hblank in Hall. apply Hzero in Hall. done.
Qed.

Lemma statistics_of_a_text_witness :
  all_space (newline +:+ " " +:+ newline) = true ∧
  wordCount (newline +:+ " " +:+ newline) = 0 ∧
  paragraphCount (newline +:+ " " +:+ newline) = 1 ∧
  readingTime (newline +:+ " " +:+ newline) = 1.
Proof.
  split; [done|].
  by apply (statistics_of_a_text (newline +:+ " " +:+ newline)).
Defined.

(** ** Leaving with unsaved changes *)



(** ** The dark mode across a reload *)

(** X15: once a page has loaded with a storage it can use, however often the
    dark mode is toggled, the next load comes up in the mode the page was
    left in; without a storage every load comes up light. *)
Theorem darkMode_survives_reload
    (template template' : bool) (m : gmap string string) (n : nat) :
  let p := Nat.iter n toggleDarkMode (loadDarkMode template (Some m)) in
  darkMode (loadDarkMode template' (localStorage p)) = darkMode p ∧
  darkMode
    (loadDarkMode template'
       (localStorage (Nat.iter n toggleDarkMode (loadDarkMode template None))))
  = false.
Proof.
  intros p. split.
  - assert (∃ m', localStorage p = Some m' ∧
                  (m' !! "darkMode" = Some "true" ↔ darkMode p = true))
      as (m' & Hm' & Hiff).
    { unfold p. induction n as [|n (m' & Hm' & Hiff)].
      - simpl. case_bool_decide as Hstored.
        + eexists. split; [done|]. simpl. by rewrite lookup_insert_eq.
        + exists m. split; [done|]. simpl. split; [done|discriminate].
      - rewrite Nat.iter_succ.
        set (q := Nat.iter n toggleDarkMode _) in *.
        unfold toggleDarkMode. simpl. rewrite Hm'. simpl.
        eexists. split; [done|]. rewrite lookup_insert_eq.
        by destruct (darkMode q). }
    rewrite Hm'. unfold loadDarkMode. case_bool_decide as Hstored.
    + simpl. symmetry. by apply Hiff.
    + simpl. destruct (darkMode p) eqn:Hd; [|done].
      exfalso. apply Hstored. by apply Hiff.
  - assert (localStorage
              (Nat.iter n toggleDarkMode (loadDarkMode template None)) = None)
      as ->; [|done].
    induction n as [|n IH]; [done|]. rewrite Nat.iter_succ.
    unfold toggleDarkMode at 1. cbv zeta. cbn [localStorage]. by rewrite IH.
Qed.

(** ** Markdown export *)

Section MarkdownExport.

Variable header : Op → option nat.
Variables bold italic : Op → bool.

Lemma foldl_op_markdown (ops : list Op) (acc : string) :
  foldl (λ allMarkdown o, allMarkdown +:+ op_markdown header bold italic o)
        acc ops
  = acc +:+ concat_strings (op_markdown header bold italic <$> ops).
Proof.
  revert acc. induction ops as [|o ops IH]; intros acc; simpl.
  - by rewrite append_nil_r.
  - by rewrite IH, append_assoc.
Qed.

Lemma foldl_markdown_sections s (l : list nat) (acc : string) :
  (∀ k, k ∈ l → is_Some (editors s !! k)) →
  foldl (λ allMarkdown '(pageNum, editor),
           foldl (λ allMarkdown o,
                    allMarkdown +:+ op_markdown header bold italic o)
                 (allMarkdown +:+ page_heading pageNum)
                 (contents (quillAt s editor)))
        acc (omap (λ k, pair k <$> editors s !! k) l)
  = acc +:+ concat_strings
              ((λ k, page_heading k +:+
                     from_option
                       (λ e, concat_strings
                               (op_markdown header bold italic
                                  <$> contents (quillAt s e)))
                       "" (editors s !! k)) <$> l).
Proof.
  revert acc. induction l as [|k l IH]; intros acc Hl; simpl.
  - by rewrite append_nil_r.
  - destruct (Hl k) as [e He]; [left|]. rewrite He. simpl.
    rewrite IH by (intros; apply Hl; by right).
    by rewrite foldl_op_markdown, !append_assoc.
Qed.

Lemma op_markdown_unformatted (ops : list Op) :
  (∀ o, o ∈ ops → header o = None ∧ bold o = false ∧ italic o = false) →
  concat_strings (op_markdown header bold italic <$> ops)
  = getText (mkQuill 0 ops).
Proof.
  unfold getText. cbn [contents].
  induction ops as [|o ops IH]; intros H; [done|].
  rewrite fmap_cons. cbn [concat_strings foldr].
  fold (concat_strings (op_markdown header bold italic <$> ops)).
  rewrite IH by (intros; apply H; by right). f_equal.
  destruct (H o) as (Hh & Hb & Hi); [left|].
  unfold op_markdown, op_text. rewrite Hh, Hb, Hi. by destruct (insert o).
Qed.

(** X16: the Markdown export puts the pages in ascending order of their numbers,
    each behind its [## Page N] heading, with the units of the page in
    their order and nothing for an embedded object; when no unit of the
    document is a heading, bold or italic, every page contributes its plain
    text. *)
Theorem exportAsMarkdown_sections (s : State) :
  StronglySorted lt (keys (editors s)) ∧
  (∀ k, k ∈ keys (editors s) ↔ is_Some (editors s !! k)) ∧
  content (exportAsMarkdown header bold italic s)
  = concat_strings
      ((λ k, page_heading k +:+
             from_option
               (λ e, concat_strings
                       (op_markdown header bold italic
                          <$> contents (quillAt s e)))
               "" (editors s !! k)) <$> keys (editors s)) ∧
  ((∀ k e o, editors s !! k = Some e → o ∈ contents (quillAt s e) →
             header o = None ∧ bold o = false ∧ italic o = false) →
   content (exportAsMarkdown header bold italic s)
   = concat_strings
       ((λ k, page_heading k +:+ pageText s k) <$> keys (editors s))).
Proof.
  split; [apply keys_ascending|].
  split; [apply elem_of_keys|].
  assert (Hc : content (exportAsMarkdown header bold italic s)
               = concat_strings
                   ((λ k, page_heading k +:+
                          from_option
                            (λ e, concat_strings
                                    (op_markdown header bold italic
                                       <$> contents (quillAt s e)))
                            "" (editors s !! k)) <$> keys (editors s))).
  { unfold exportAsMarkdown. simpl. rewrite sorted_entries_keys.
    rewrite foldl_markdown_sections; [done|].
    intros k. by rewrite elem_of_keys. }
  split; [done|]. intros Hplain. rewrite Hc. f_equal.
  apply list_fmap_ext. intros i k _. f_equal. unfold pageText.
  destruct (editors s !! k) as [e|] eqn:He; [|done]. simpl.
  rewrite op_markdown_unformatted by (intros o Ho; exact (Hplain k e o He Ho)).
  by destruct (quillAt s e).
Qed.

End MarkdownExport.

Lemma exportAsMarkdown_sections_witness :
  content (exportAsMarkdown (λ _, None) (λ _, false) (λ _, false) abc_document)
  = concat_strings
      ((λ k, page_heading k +:+ pageText abc_document k)
         <$> keys (editors abc_document)) ∧
  concat_strings
      ((λ k, page_heading k +:+ pageText abc_document k)
         <$> keys (editors abc_document))
  = newline +:+ newline +:+ "## Page 1" +:+ newline +:+ newline
    +:+ "a" +:+ newline
    +:+ newline +:+ newline +:+ "## Page 2" +:+ newline +:+ newline
    +:+ "b" +:+ newline
    +:+ newline +:+ newline +:+ "## Page 3" +:+ newline +:+ newline
    +:+ "c" +:+ newline.
Proof.
  split; [|by vm_compute].
  apply (exportAsMarkdown_sections (λ _, None) (λ _, false) (λ _, false)
           abc_document).
  done.
Defined.

(** ** Samples for the page counter and the unload guard *)

Lemma updatePageCount_takes_largest_key_witness :
  ∃ s', updatePageCount two_pages = Some s' ∧
        is_Some (editors two_pages !! currentPage s') ∧
        (∀ k, is_Some (editors two_pages !! k) → k ≤ currentPage s') ∧
        totalPagesDisplay s' = size (editors two_pages).
Proof.
  eexists. split; [vm_compute; reflexivity|].
  pose proof (proj2 (updatePageCount_takes_largest_key two_pages) _ eq_refl)
    as (H1 & H2 & H3 & _).
  split_and!; [exact H1|exact H2|exact H3].
Defined.


(** ** The statistics over the pages *)

Lemma texts_of_values s (l : list nat) :
  (∀ k, k ∈ l → is_Some (editors s !! k)) →
  map (λ e, getText (quillAt s e)) (omap (λ k, editors s !! k) l)
  = pageText s <$> l.
Proof.
  induction l as [|k l IH]; intros Hl; [done|].
  destruct (Hl k) as [e He]; [left|].
  assert (Hk : pageText s k = getText (quillAt s e))
    by (unfold pageText; by rewrite He).
  rewrite fmap_cons, Hk, <- IH by (intros; apply Hl; by right).
  simpl. by rewrite He.
Qed.

Lemma length_concat_strings (texts : list string) :
  String.length (concat_strings texts) = sum_list (String.length <$> texts).
Proof.
  induction texts as [|t texts IH]; [done|].
  rewrite fmap_cons. cbn [concat_strings sum_list foldr].
  fold (concat_strings texts). fold (sum_list (String.length <$> texts)).
  by rewrite length_append, IH.
Qed.

(** X17: the statistics are taken of the texts of the pages joined in ascending
    order of the page numbers, and the character count shown is the total
    of their lengths less one, however many pages there are. *)
Theorem updateStats_joins_pages_in_order (s : State) :
  statsText (updateStats s)
  = concat_strings (pageText s <$> keys (editors s)) ∧
  charCount (statsText (updateStats s))
  = sum_list ((λ k, String.length (pageText s k)) <$> keys (editors s)) - 1 ∧
  ∀ k, k ∈ keys (editors s) ↔ is_Some (editors s !! k).
Proof.
  assert (Ht : statsText (updateStats s)
               = concat_strings (pageText s <$> keys (editors s))).
  { unfold updateStats, values.
    rewrite <- (texts_of_values s (keys (editors s)));
      [by destruct s|]. intros k. by rewrite elem_of_keys. }
  split_and!; [done| |apply elem_of_keys].
  unfold charCount. rewrite Ht, length_concat_strings.
  by rewrite <- list_fmap_compose.
Qed.
